(** * gym_hil: task logic of [PandaStackCubesGymEnv]

    A shallow embedding of [gym_hil/envs/panda_stack_gym_env.py]: the
    reset/step life cycle, the gripper release tracker, the pairwise
    stacking detector and the sparse and dense rewards.

    Numbers.  The environment computes on float64 values; here they are
    rationals ([Q]), compared with [==].  The observation is cast to
    float32: [astype_float32] is the rounding of a number to the nearest
    float32.  The physics engine, the robot
    controller, the renderer and the random generators are outside the
    file that is embedded; they are an interface ([Collaborators]) whose
    operations the environment calls.

    Exceptions.  A Python exception ([KeyError] on an unknown joint or
    sensor name, [IndexError], [AttributeError]) is [None] in the option
    monad. *)

From Stdlib Require Import QArith Qabs Qminmax Qround Lqa Lia.
From Stdlib Require Import Reals Qreals Lra.
From stdpp Require Import base option list gmap strings pretty.

Local Open Scope Q_scope.

(** ** Numeric helpers *)

Module Num.

(** [a < b] on floats, as a boolean. *)
Definition Qltb (a b : Q) : bool := negb (Qle_bool b a).

(** [np.clip(x, lo, hi)]. *)
Definition np_clip (x lo hi : Q) : Q :=
  if Qltb x lo then lo else if Qltb hi x then hi else x.

(** Python's [max(a, b)]: the first argument unless the second is
    strictly greater. *)
Definition py_max (a b : Q) : Q := if Qltb a b then b else a.

(** A [np.float32] value: a finite one, given by the number it stands
    for, or an infinity. *)
Inductive float32 := F32 (value : Q) | F32_inf (negative : bool).

(** [floor(log2(|q|))] for [q] other than 0: the exponent of [q] in
    binary scientific notation. *)
Definition floor_log2 (q : Q) : Z :=
  let e0 := (Z.log2 (Z.abs (Qnum q)) - Z.log2 (Z.pos (Qden q)))%Z in
  if Qle_bool (2 ^ e0) (Qabs q) then e0 else (e0 - 1)%Z.

(** The nearest integer, a tie going to the even one. *)
Definition round_half_even (q : Q) : Z :=
  let f := Qfloor q in
  let r := q - inject_Z f in
  if Qltb r (1 # 2) then f
  else if Qltb (1 # 2) r then (f + 1)%Z
  else if Z.even f then f else (f + 1)%Z.

(** [x.astype(np.float32)] on one float64: the nearest number with a
    24-bit significand, ties to even; below [2 ^ -126] the spacing stays
    [2 ^ -149] (subnormals), and what rounds to [2 ^ 128] or beyond is an
    infinity. *)
Definition astype_float32 (q : Q) : float32 :=
  if Qeq_bool q 0 then F32 0
  else
    let e := Z.max (floor_log2 q) (-126) in
    let ulp := 2 ^ (e - 23) in
    let r := inject_Z (round_half_even (q / ulp)) * ulp in
    if Qle_bool (2 ^ 128) (Qabs r) then F32_inf (Qltb q 0) else F32 (Qred r).

End Num.
Import Num.

(** ** Physics snapshot *)

(** A 3-D position, the [data] of a position sensor. *)
Record vec3 := Vec3 { vx : Q; vy : Q; vz : Q }.

(** [MjData]: joint coordinates by joint name ([data.joint(name).qpos], a
    vector whose length depends on the joint type: 7 for the free joint of
    a block, 1 for a finger driver), and sensor readings by sensor name
    ([data.sensor(name).data]).  Sensor readings are refreshed by the
    physics engine only, never by a write to [qpos]. *)
Record MjData := mkMjData {
  joint : gmap string (list Q);
  sensor : gmap string vec3
}.

(** The [data] array of a position sensor. *)
Definition sensor_data (p : vec3) : list Q := [vx p; vy p; vz p].

(** [data.joint(name).qpos[:3] = (x, y, z)]. *)
Definition set_qpos3 (name : string) (x y z : Q) (d : MjData) : option MjData :=
  qpos ← joint d !! name;
  if decide (3 ≤ length qpos)%nat
  then Some (mkMjData (<[name := [x; y; z] ++ drop 3 qpos]> (joint d)) (sensor d))
  else None.

Definition _SAMPLING_BOUNDS : (Q * Q) * (Q * Q) := ((0.3, -0.15), (0.5, 0.15)).

(** ** External collaborators *)

Class Collaborators := {
  Action : Type;
  Image : Type;
  Rng : Type;
  (** [self.apply_action(action)]: the controller and the physics step. *)
  apply_action : Action → MjData → MjData;
  (** [mujoco.mj_resetData(model, data)]. *)
  mj_resetData : MjData → MjData;
  (** [self.reset_robot()]. *)
  reset_robot : MjData → MjData;
  (** [self.get_robot_state()]: a float64 vector. *)
  get_robot_state : MjData → list Q;
  (** [self.render()]: the front and the wrist view. *)
  render : MjData → Image * Image;
  (** The generator gymnasium builds from a seed ([self.np_random]). *)
  seed_rng : Z → Rng;
  (** [np.random.uniform(low, high)] on 2-vectors, drawing from the
      generator state it is given and returning the advanced state. *)
  uniform : Q * Q → Q * Q → Rng → (Q * Q) * Rng
}.

(** ** The environment *)

Section Env.
Context `{Collaborators}.

(** The observation dictionary, in its two layouts; [agent_pos] and
    [environment_state] are float32 arrays. *)
Inductive Observation :=
| StateObs (agent_pos : list float32) (environment_state : list float32)
| PixelObs (front wrist : Image) (agent_pos : list float32).

(** The attributes of the environment object.  [_z_inits] and
    [_prev_gripper_closed] are created by [reset]; before the first
    [reset] they do not exist ([None]).  [np_random] is gymnasium's
    generator, owned by the instance. *)
Record Env := mkEnv {
  reward_type : string;
  num_blocks : nat;
  image_obs : bool;
  _block_z : Q;
  _random_block_position : bool;
  _data : MjData;
  np_random : option Rng;
  _z_inits : option (list Q);
  _prev_gripper_closed : option bool
}.

Definition set_data (d : MjData) (self : Env) : Env :=
  mkEnv (reward_type self) (num_blocks self) (image_obs self) (_block_z self)
        (_random_block_position self) d (np_random self) (_z_inits self)
        (_prev_gripper_closed self).

Definition set_np_random (g : option Rng) (self : Env) : Env :=
  mkEnv (reward_type self) (num_blocks self) (image_obs self) (_block_z self)
        (_random_block_position self) (_data self) g (_z_inits self)
        (_prev_gripper_closed self).

Definition set_z_inits (zs : option (list Q)) (self : Env) : Env :=
  mkEnv (reward_type self) (num_blocks self) (image_obs self) (_block_z self)
        (_random_block_position self) (_data self) (np_random self) zs
        (_prev_gripper_closed self).

Definition set_prev_gripper_closed (b : option bool) (self : Env) : Env :=
  mkEnv (reward_type self) (num_blocks self) (image_obs self) (_block_z self)
        (_random_block_position self) (_data self) (np_random self)
        (_z_inits self) b.

(** [__init__]: the block half-height is read from the model
    ([self._model.geom("block1").size[2]]) and the physics data is
    created by the base class; both are arguments here. *)
Definition __init__ (reward_type : string) (random_block_position : bool)
    (num_blocks : nat) (image_obs : bool) (block1_size_z : Q) (data : MjData) : Env :=
  mkEnv reward_type num_blocks image_obs block1_size_z random_block_position
        data None None None.

(** [f"block{i + 1}"], the name of object [i] in [_compute_reward] and
    [_is_success]. *)
Definition block_name (i : nat) : string := "block" +:+ pretty (i + 1)%nat.

(** [f"block{i}" if i > 0 else "block1"], the name [reset] uses in both
    of its loops. *)
Definition reset_block_name (i : nat) : string :=
  if decide (0 < i)%nat then "block" +:+ pretty i else "block1".

(** *** Observation *)

Definition _compute_observation (self : Env) : option Observation :=
  let robot_state := astype_float32 <$> get_robot_state (_data self) in
  block1_pos ← sensor (_data self) !! "block1_pos";
  let block1_pos := astype_float32 <$> sensor_data block1_pos in
  if image_obs self
  then let '(front_view, wrist_view) := render (_data self) in
       Some (PixelObs front_view wrist_view robot_state)
  else Some (StateObs robot_state block1_pos).

(** *** Gripper tracker *)

Definition _is_gripper_closed (self : Env) : option bool :=
  qpos ← joint (_data self) !! "left_driver_joint";
  left_finger ← qpos !! 0%nat;
  let gripper_position := left_finger in
  Some (Qltb 0.1 gripper_position).

Definition _was_block_just_released (self : Env) : option (bool * Env) :=
  match _prev_gripper_closed self with
  | None =>
      c ← _is_gripper_closed self;
      Some (false, set_prev_gripper_closed (Some c) self)
  | Some prev =>
      current_closed ← _is_gripper_closed self;
      let just_released := prev && negb current_closed in
      Some (just_released, set_prev_gripper_closed (Some current_closed) self)
  end.

(** *** Success detector *)

(** [np.linalg.norm(upper[:2] - lower[:2]) < eps], decided on the
    squares (lemma [xy_dist_ltb_norm] relates it to the square root). *)
Definition xy_sq (upper lower : vec3) : Q :=
  (vx upper - vx lower) * (vx upper - vx lower)
  + (vy upper - vy lower) * (vy upper - vy lower).

Definition xy_dist_ltb (upper lower : vec3) (eps : Q) : bool :=
  Qltb (xy_sq upper lower) (eps * eps).

(** The test of one ordered pair, [upper] over [lower]. *)
Definition stack_test (block_z : Q) (upper lower : vec3) : bool :=
  let z_diff := vz upper - vz lower in
  xy_dist_ltb upper lower 0.030
  && Qltb 0.03 z_diff
  && Qltb (Qabs (z_diff - block_z * 2)) 0.05.

(** The inner loop [for j in range(...)] for a fixed [i]; [Some true] is
    the [break] with [stacked = True]. *)
Fixpoint stack_inner (positions : list vec3) (block_z : Q) (i : nat)
    (jvals : list nat) : option bool :=
  match jvals with
  | [] => Some false
  | j :: jvals' =>
      if decide (i = j) then stack_inner positions block_z i jvals'
      else
        upper ← positions !! i;
        lower ← positions !! j;
        if stack_test block_z upper lower then Some true
        else stack_inner positions block_z i jvals'
  end.

(** The outer loop [for i in range(...)], left when [stacked]. *)
Fixpoint stack_outer (positions : list vec3) (block_z : Q) (ivals jvals : list nat)
    : option bool :=
  match ivals with
  | [] => Some false
  | i :: ivals' =>
      stacked ← stack_inner positions block_z i jvals;
      if stacked : bool then Some true
      else stack_outer positions block_z ivals' jvals
  end.

(** [_is_success]; the log lines are not modelled, the reads that build
    them are (a missing joint raises). *)
Definition _is_success (self : Env) : option bool :=
  let range := seq 0 (num_blocks self) in
  positions ← mapM (λ i, sensor (_data self) !! (block_name i +:+ "_pos")) range;
  _ ← mapM (λ i, joint (_data self) !! block_name i) range;
  stack_outer positions (_block_z self) range range.

(** *** Reward *)

(** The loop [for i, pos in enumerate(block_positions)] of the dense
    reward, from index [i] on, with the running maximum. *)
Fixpoint lift_loop (self : Env) (i : nat) (block_positions : list vec3)
    (max_lift_reward : Q) : option Q :=
  match block_positions with
  | [] => Some max_lift_reward
  | pos :: rest =>
      z_inits ← _z_inits self;
      z_init ← z_inits !! i;
      let lift := (vz pos - z_init) / (_block_z self * 2) in
      let lift_reward := np_clip lift 0.0 1.0 in
      lift_loop self (S i) rest (py_max max_lift_reward lift_reward)
  end.

Definition _compute_reward (self : Env) : option (Q * Env) :=
  if String.eqb (reward_type self) "dense" then
    block_positions ←
      mapM (λ i, sensor (_data self) !! (block_name i +:+ "_pos"))
           (seq 0 (num_blocks self));
    max_lift_reward ← lift_loop self 0 block_positions 0.0;
    '(released, self) ← _was_block_just_released self;
    c1 ← (if released : bool then _is_success self else Some false);
    stack_reward ←
      (if c1 : bool then Some 2.0
       else c2 ← _is_success self; Some (if c2 : bool then 0.5 else 0.0));
    Some (0.3 * max_lift_reward + 0.7 * stack_reward, self)
  else
    '(released, self) ← _was_block_just_released self;
    c ← (if released : bool then _is_success self else Some false);
    Some (if c : bool then 1.0 else 0.0, self).

(** *** Bounds *)

(** [np.any(p[:2] < lo - 0.05) or np.any(p[:2] > hi + 0.05)]. *)
Definition exceeded_bounds (block1_pos : vec3) : bool :=
  let '((lo_x, lo_y), (hi_x, hi_y)) := _SAMPLING_BOUNDS in
  (Qltb (vx block1_pos) (lo_x - 0.05) || Qltb (vy block1_pos) (lo_y - 0.05))
  || (Qltb (hi_x + 0.05) (vx block1_pos) || Qltb (hi_y + 0.05) (vy block1_pos)).

(** *** step *)

Record StepResult := mkStepResult {
  obs : Observation;
  rew : Q;
  terminated : bool;
  truncated : bool;
  info : gmap string bool
}.

Definition step (action : Action) (self : Env) : option (StepResult * Env) :=
  let self := set_data (apply_action action (_data self)) self in
  obs ← _compute_observation self;
  '(rew, self) ← _compute_reward self;
  success ← _is_success self;
  let success :=
    if String.eqb (reward_type self) "sparse" then Qeq_bool rew 1.0 else success in
  let terminated := success in
  block1_pos ← sensor (_data self) !! "block1_pos";
  let exceeded_bounds := exceeded_bounds block1_pos in
  let terminated := terminated || exceeded_bounds in
  Some (mkStepResult obs rew terminated false {["succeed" := success]}, self).

(** *** reset *)

(** The placement loop of [reset] over the indices [idx]; [g] is the
    state of numpy's module-level generator, the one [np.random.uniform]
    draws from. *)
Fixpoint place_blocks (random : bool) (block_z : Q) (idx : list nat)
    (d : MjData) (g : Rng) : option (MjData * Rng) :=
  match idx with
  | [] => Some (d, g)
  | i :: idx' =>
      let name := reset_block_name i in
      let '(block_xy, g) :=
        if random then uniform (fst _SAMPLING_BOUNDS) (snd _SAMPLING_BOUNDS) g
        else ((0.5, -0.1 + inject_Z (Z.of_nat i) * 0.1), g) in
      d ← set_qpos3 name (fst block_xy) (snd block_xy) block_z d;
      place_blocks random block_z idx' d g
  end.

(** The loop that fills [_z_inits]. *)
Fixpoint read_z_inits (idx : list nat) (d : MjData) (z_inits : list Q)
    : option (list Q) :=
  match idx with
  | [] => Some z_inits
  | i :: idx' =>
      let name := reset_block_name i in
      p ← sensor d !! (name +:+ "_pos");
      read_z_inits idx' d (z_inits ++ [vz p])
  end.

(** Modelled from the spec: [super().reset(seed=seed)], the [reset] of the
    base class, which is not part of the embedded file.  It "re-seeds
    randomness if provided"; by the comment at the call it is gymnasium's
    generator of the instance ([self.np_random]) that is initialised when
    a seed is given.  A seed that gymnasium refuses (a negative one) is
    not told apart here; [seed_accepted] names the seeds it takes. *)
Definition super_reset (seed : option Z) (self : Env) : Env :=
  match seed with
  | Some s => set_np_random (Some (seed_rng s)) self
  | None => self
  end.

(** [reset(seed)].  The module-level generator state [g] is threaded
    through: it is shared by all instances of the process. *)
Definition reset (seed : option Z) (self : Env) (g : Rng)
    : option ((Observation * gmap string bool) * Env * Rng) :=
  let self := super_reset seed self in
  let d := mj_resetData (_data self) in
  let d := reset_robot d in
  '(d, g) ← place_blocks (_random_block_position self) (_block_z self)
              (seq 0 (num_blocks self)) d g;
  let self := set_data d self in
  z_inits ← read_z_inits (seq 0 (num_blocks self)) (_data self) [];
  let self := set_z_inits (Some z_inits) self in
  let self := set_prev_gripper_closed (Some false) self in
  obs ← _compute_observation self;
  Some ((obs, ∅), self, g).

End Env.

(** ** Runs of the tracker *)

Section TrackerRuns.
Context `{Collaborators}.

(** The values [_was_block_just_released] returns when it is called once
    on each of the given physics snapshots, in order. *)
Fixpoint release_trace (self : Env) (snapshots : list MjData) : option (list bool) :=
  match snapshots with
  | [] => Some []
  | d :: rest =>
      '(released, self) ← _was_block_just_released (set_data d self);
      tail ← release_trace self rest;
      Some (released :: tail)
  end.

(** The gripper states of the snapshots. *)
Definition gripper_states (self : Env) (snapshots : list MjData) : option (list bool) :=
  mapM (λ d, _is_gripper_closed (set_data d self)) snapshots.

End TrackerRuns.

(** The closed-to-open transitions of the sequence [prev :: states]. *)
Fixpoint transitions_from (prev : bool) (states : list bool) : nat :=
  match states with
  | [] => 0
  | current :: rest =>
      (if prev && negb current then 1 else 0) + transitions_from current rest
  end%nat.

(** The closed-to-open transitions of a sequence of gripper states: the
    positions where a closed state is followed by an open one. *)
Definition closed_to_open (states : list bool) : nat :=
  match states with
  | [] => 0%nat
  | first :: rest => transitions_from first rest
  end.

Definition count_true (l : list bool) : nat := length (filter (λ b, b = true) l).

(** ** A scripted world for concrete runs

    The collaborators are scripts: the action of a step is the physics
    snapshot the controller and the engine leave behind, the canonical
    physics state is a fixed scene, and the generator is a small linear
    congruential one. *)

Module Scripted.

(** A scene with three blocks and the gripper; the sensors agree with
    the joints. *)
Definition scene (p1 p2 p3 : vec3) (left_finger : Q) : MjData :=
  let free p := [vx p; vy p; vz p; 1; 0; 0; 0] in
  mkMjData
    (<["block1" := free p1]> (<["block2" := free p2]> (<["block3" := free p3]>
      (<["left_driver_joint" := [left_finger]]> ∅))))
    (<["block1_pos" := p1]> (<["block2_pos" := p2]> (<["block3_pos" := p3]> ∅))).

(** The canonical state: block 2 rests on a 3 cm pad, the others on the
    table. *)
Definition canonical : MjData :=
  scene (Vec3 0.4 0.1 0.02) (Vec3 0.4 (-0.1) 0.05) (Vec3 0.3 0 0.02) 0.

Definition lcg (g : Z) : Z := ((g * 421 + 17) mod 1000)%Z.

Definition unit_sample (g : Z) : Q := inject_Z g / 1000.

Definition world : Collaborators := {|
  Action := MjData;
  Image := unit;
  Rng := Z;
  apply_action := λ a _, a;
  mj_resetData := λ _, canonical;
  reset_robot := λ d, d;
  get_robot_state := λ d, default [] (joint d !! "left_driver_joint");
  render := λ _, ((), ());
  seed_rng := λ s, s;
  uniform := λ lo hi g,
    let g1 := lcg g in
    let g2 := lcg g1 in
    ((fst lo + (fst hi - fst lo) * unit_sample g1,
      snd lo + (snd hi - snd lo) * unit_sample g2), g2)
|}.

Definition h : Q := 0.02.

(** A fresh instance, as [__init__] leaves it. *)
Definition fresh (reward_type : string) (random : bool) (n : nat) : @Env world :=
  @__init__ world reward_type random n false h canonical.

(** The blocks apart on the table. *)
Definition apart_scene (left_finger : Q) : MjData :=
  scene (Vec3 0.5 0 0.02) (Vec3 0.5 0.1 0.02) (Vec3 0.3 0 0.02) left_finger.

(** Block 2 sits exactly on block 1. *)
Definition stacked_scene (left_finger : Q) : MjData :=
  scene (Vec3 0.5 0 0.02) (Vec3 0.5 0 0.06) (Vec3 0.3 0 0.02) left_finger.

(** Block 2 at the height of a stack on block 1, but 20 cm beside it. *)
Definition offset_scene (left_finger : Q) : MjData :=
  scene (Vec3 0.5 0 0.02) (Vec3 0.5 0.2 0.06) (Vec3 0.3 0 0.02) left_finger.

(** The state of the module-level generator when the first instance is
    reset. *)
Definition g0 : Z := 7.

(** An instance with two blocks after its first [reset(seed=0)]. *)
Definition started (reward_type : string) : @Env world :=
  match @reset world (Some 0%Z) (fresh reward_type false 2) g0 with
  | Some (_, self, _) => self
  | None => fresh reward_type false 2
  end.

(** The same instance one step later: the gripper has closed (finger
    joint at 0.5), the blocks are apart. *)
Definition grasped (reward_type : string) : @Env world :=
  match @step world (apart_scene 0.5) (started reward_type) with
  | Some (_, self) => self
  | None => started reward_type
  end.

(** An instance whose physics has moved on to the snapshot [a], as at
    the start of [step]. *)
Definition moved (a : MjData) (self : @Env world) : @Env world :=
  @set_data world (@apply_action world a (@_data world self)) self.

(** Whether a call returned (rather than raised). *)
Definition returned {A} (r : option A) : bool :=
  match r with Some _ => true | None => false end.

(** Two fresh instances with randomized placement, reset one after the
    other with the same seed in one process. *)
Definition first_reset :=
  @reset world (Some 0%Z) (fresh "sparse" true 2) g0.

Definition second_reset :=
  match first_reset with
  | Some (_, _, g1) => @reset world (Some 0%Z) (fresh "sparse" true 2) g1
  | None => None
  end.

(** Where a [reset] put the first block: [qpos[:2]] of joint [block1]. *)
Definition placement (r : option ((@Observation world * gmap string bool) * @Env world * Z))
    : option (Q * Q) :=
  '(_, self, _) ← r;
  qpos ← joint (_data self) !! "block1";
  x ← qpos !! 0%nat;
  y ← qpos !! 1%nat;
  Some (x, y).

End Scripted.

(** ** Specification-side definitions

    What the specification says of a step, in its own words, to be
    compared with the code above. *)

(** Sparse mode: 1.0 iff just released and stacked. *)
Definition sparse_reward (released stacked : bool) : Q :=
  if released && stacked then 1.0 else 0.0.

(** Dense mode, the stack term: 2.0 if just released and stacked, else 0.5
    if stacked, else 0.0. *)
Definition stack_term (released stacked : bool) : Q :=
  if released && stacked then 2.0 else if stacked then 0.5 else 0.0.

(** The planar distance of two positions: the Euclidean length, a real
    number, of the difference of their x and y coordinates. *)
Definition xy_dist (upper lower : vec3) : R :=
  sqrt ((Q2R (vx upper) - Q2R (vx lower)) * (Q2R (vx upper) - Q2R (vx lower))
        + (Q2R (vy upper) - Q2R (vy lower)) * (Q2R (vy upper) - Q2R (vy lower)))%R.

(** An ordered pair is a valid stack: planar distance below 0.030,
    vertical difference above 0.03 and within 0.05 of twice the
    half-height. *)
Definition valid_stack (h : Q) (upper lower : vec3) : Prop :=
  (xy_dist upper lower < Q2R 0.030)%R
  ∧ 0.03 < vz upper - vz lower
  ∧ Qabs ((vz upper - vz lower) - 2 * h) < 0.05.

(** An object moved to height [z], its planar position kept. *)
Definition with_height (z : Q) (p : vec3) : vec3 := Vec3 (vx p) (vy p) z.

(** The normalised, clipped lift of one object: current height [z],
    baseline [z0], half-height [h]. *)
Definition clipped_lift (h z0 z : Q) : Q := np_clip ((z - z0) / (h * 2)) 0.0 1.0.

(** The ordered pair of indices [(i, j)] passes the test of the loops. *)
Definition accepts (positions : list vec3) (h : Q) (i j : nat) : Prop :=
  i ≠ j ∧ ∃ upper lower,
    positions !! i = Some upper ∧ positions !! j = Some lower
    ∧ stack_test h upper lower = true.

(** The reference object is outside the sampling rectangle expanded by
    the margin 0.05. *)
Definition outside_expanded_bounds (p : vec3) : Prop :=
  vx p < 0.3 - 0.05 ∨ vy p < -0.15 - 0.05 ∨ 0.5 + 0.05 < vx p ∨ 0.15 + 0.05 < vy p.

(** The physics data has what a step reads: the sensor of the reference
    object, sensor and joint of each of the [n] objects, and the finger
    joint. *)
Definition names_present (n : nat) (d : MjData) : Prop :=
  is_Some (sensor d !! "block1_pos")
  ∧ (∀ i, (i < n)%nat →
       is_Some (sensor d !! (block_name i +:+ "_pos"))
       ∧ is_Some (joint d !! block_name i))
  ∧ (∃ q qs, joint d !! "left_driver_joint" = Some (q :: qs)).

(** The per-episode baseline exists and covers the [n] objects, as after
    a [reset]. *)
Definition baseline_ready `{Collaborators} (self : Env) : Prop :=
  ∃ zs, _z_inits self = Some zs ∧ (num_blocks self ≤ length zs)%nat.

(** ** The loop of the entry point

    [env.reset()] followed by [for _ in range(...): env.step(action)], as
    under [if __name__ == "__main__"]: the steps are taken one after the
    other on the same instance and [terminated] is not looked at. *)

(** The results of the steps for the given actions, in order, and the
    instance after the last one. *)
Fixpoint run_steps `{Collaborators} (actions : list Action) (self : Env)
    : option (list StepResult * Env) :=
  match actions with
  | [] => Some ([], self)
  | action :: rest =>
      '(res, self) ← step action self;
      '(results, self) ← run_steps rest self;
      Some (res :: results, self)
  end.

(** The physics snapshots the actions leave, one per step. *)
Fixpoint run_data `{Collaborators} (actions : list Action) (d : MjData) : list MjData :=
  match actions with
  | [] => []
  | action :: rest => apply_action action d :: run_data rest (apply_action action d)
  end.

(** The steps whose reward is 1.0. *)
Definition count_ones `{Collaborators} (results : list StepResult) : nat :=
  length (filter (λ res, Qeq_bool (rew res) 1.0 = true) results).

(** The state of the module-level generator after [n] draws of
    [np.random.uniform] over the sampling bounds. *)
Definition after_draws `{Collaborators} (n : nat) (g : Rng) : Rng :=
  Nat.iter n (λ g, snd (uniform (fst _SAMPLING_BOUNDS) (snd _SAMPLING_BOUNDS) g)) g.

(** The planar position the placement loop of [reset] computes at index
    [i]: with randomized placement the draw made when the generator,
    started at [g], has already been drawn from [i] times; otherwise the
    fixed offset along y. *)
Definition placement_of `{Collaborators} (random : bool) (g : Rng) (i : nat) : Q * Q :=
  if random
  then fst (uniform (fst _SAMPLING_BOUNDS) (snd _SAMPLING_BOUNDS) (after_draws i g))
  else (0.5, -0.1 + inject_Z (Z.of_nat i) * 0.1).

(** What [reset] needs of the physics data [d] it places the blocks in:
    for every index below [n], the joint that [reset] names, with at
    least three coordinates, and the sensor that [reset] names; and the
    sensor of the reference object for the observation. *)
Definition reset_ready (n : nat) (d : MjData) : Prop :=
  (∀ i, (i < n)%nat →
     (∃ qpos, joint d !! reset_block_name i = Some qpos ∧ (3 ≤ length qpos)%nat)
     ∧ is_Some (sensor d !! (reset_block_name i +:+ "_pos")))
  ∧ is_Some (sensor d !! "block1_pos").

(** The seeds the [reset] of the base class accepts: no seed, or an
    integer that is not negative (any other makes gymnasium raise). *)
Definition seed_accepted (seed : option Z) : Prop :=
  match seed with
  | Some s => (0 <= s)%Z
  | None => True
  end.

(** A position moved by the offset [t]. *)
Definition translate (t p : vec3) : vec3 :=
  Vec3 (vx p + vx t) (vy p + vy t) (vz p + vz t).

(** The physics data with every sensor reading moved by [t]. *)
Definition shift_sensors (t : vec3) (d : MjData) : MjData :=
  mkMjData (joint d) (translate t <$> sensor d).

(** * Properties *)

(** ** Comparisons, clip and max *)

Ltac qlra := Lqa.lra.
Ltac rlra := Lra.lra.

Lemma Qltb_lt (a b : Q) : Qltb a b = true ↔ a < b.
Proof.
  unfold Qltb. rewrite negb_true_iff, <- not_true_iff_false, Qle_bool_iff.
  split; [apply Qnot_le_lt | apply Qlt_not_le].
Qed.

Lemma Qltb_ge (a b : Q) : Qltb a b = false ↔ b <= a.
Proof.
  unfold Qltb. rewrite negb_false_iff, Qle_bool_iff. reflexivity.
Qed.

Ltac qcases :=
  repeat match goal with
  | |- context [Qltb ?a ?b] =>
      let E := fresh "E" in
      destruct (Qltb a b) eqn:E; [apply Qltb_lt in E | apply Qltb_ge in E]
  end.

Lemma np_clip_range (x : Q) : 0 <= np_clip x 0.0 1.0 <= 1.
Proof. unfold np_clip. qcases; qlra. Qed.

Lemma np_clip_mono (x y : Q) : x <= y → np_clip x 0.0 1.0 <= np_clip y 0.0 1.0.
Proof. intros Hxy. unfold np_clip. qcases; qlra. Qed.

Lemma np_clip_top (x : Q) : 1 <= x → np_clip x 0.0 1.0 == 1.
Proof. intros Hx. unfold np_clip. qcases; qlra. Qed.

Lemma np_clip_bottom (x : Q) : x <= 0 → np_clip x 0.0 1.0 == 0.
Proof. intros Hx. unfold np_clip. qcases; qlra. Qed.

Lemma py_max_mono (a a' b b' : Q) : a <= a' → b <= b' → py_max a b <= py_max a' b'.
Proof. intros Ha Hb. unfold py_max. qcases; qlra. Qed.

Lemma py_max_ge_l (a b : Q) : a <= py_max a b.
Proof. unfold py_max. qcases; qlra. Qed.

Lemma py_max_ge_r (a b : Q) : b <= py_max a b.
Proof. unfold py_max. qcases; qlra. Qed.

Lemma py_max_le (a b c : Q) : a <= c → b <= c → py_max a b <= c.
Proof. intros Ha Hb. unfold py_max. qcases; qlra. Qed.

(** The sum of squares the code compares is the square of the planar
    distance. *)
Lemma xy_sq_real (upper lower : vec3) :
  Q2R (xy_sq upper lower)
  = ((Q2R (vx upper) - Q2R (vx lower)) * (Q2R (vx upper) - Q2R (vx lower))
     + (Q2R (vy upper) - Q2R (vy lower)) * (Q2R (vy upper) - Q2R (vy lower)))%R.
Proof. unfold xy_sq. by rewrite Q2R_plus, !Q2R_mult, !Q2R_minus. Qed.

(** The planar test on squares is the test on the Euclidean norm. *)
Lemma xy_dist_ltb_norm (upper lower : vec3) (eps : Q) :
  0 < eps →
  xy_dist_ltb upper lower eps = true ↔ (xy_dist upper lower < Q2R eps)%R.
Proof.
  intros Heps. unfold xy_dist_ltb, xy_dist. rewrite Qltb_lt, <- xy_sq_real.
  assert (Hs : (0 <= Q2R (xy_sq upper lower))%R).
  { rewrite xy_sq_real. apply Rplus_le_le_0_compat; apply Rle_0_sqr. }
  assert (He : (0 < Q2R eps)%R) by (rewrite <- RMicromega.Q2R_0; by apply Qlt_Rlt).
  split.
  - intros Hlt. apply Qlt_Rlt in Hlt. rewrite Q2R_mult in Hlt.
    rewrite <- (sqrt_square (Q2R eps)) by rlra.
    apply sqrt_lt_1_alt. by split.
  - intros Hlt. apply Rlt_Qlt. rewrite Q2R_mult.
    rewrite <- (sqrt_square (Q2R eps)) in Hlt by rlra.
    by apply sqrt_lt_0_alt in Hlt.
Qed.

(** ** The tracker *)

Section Tracker.
Context `{Collaborators}.

Lemma _is_gripper_closed_data (self self' : Env) :
  _data self = _data self' → _is_gripper_closed self = _is_gripper_closed self'.
Proof. unfold _is_gripper_closed. by intros ->. Qed.

Lemma just_released_inv (self self' : Env) (released : bool) :
  _was_block_just_released self = Some (released, self') →
  ∃ current,
    _is_gripper_closed self = Some current
    ∧ self' = set_prev_gripper_closed (Some current) self
    ∧ released = match _prev_gripper_closed self with
                 | Some prev => prev && negb current
                 | None => false
                 end.
Proof.
  unfold _was_block_just_released.
  destruct (_prev_gripper_closed self) as [prev|];
    destruct (_is_gripper_closed self) as [c|]; simpl; intros Heq;
    try discriminate; injection Heq as <- <-; by exists c.
Qed.

Lemma just_released_total (self : Env) (current : bool) :
  _is_gripper_closed self = Some current →
  _was_block_just_released self
  = Some (match _prev_gripper_closed self with
          | Some prev => prev && negb current
          | None => false
          end, set_prev_gripper_closed (Some current) self).
Proof.
  intros Hc. unfold _was_block_just_released. rewrite Hc.
  by destruct (_prev_gripper_closed self).
Qed.

Lemma release_trace_from (self : Env) (snapshots : list MjData)
    (prev : bool) (states : list bool) :
  _prev_gripper_closed self = Some prev →
  gripper_states self snapshots = Some states →
  ∃ rs, release_trace self snapshots = Some rs
        ∧ count_true rs = transitions_from prev states
        ∧ length rs = length snapshots
        ∧ rs !! 0%nat = (λ c, prev && negb c) <$> states !! 0%nat.
Proof.
  revert self prev states.
  induction snapshots as [|d rest IH]; intros self prev states Hprev Hst.
  - injection Hst as <-. by exists [].
  - unfold gripper_states in Hst. rewrite mapM_Some in Hst.
    inversion Hst as [|? current ? tail Hc Htail]; subst.
    destruct (IH (set_prev_gripper_closed (Some current) (set_data d self))
                 current tail eq_refl) as (rs & Hrs & Hcount & Hlen & _).
    { unfold gripper_states. rewrite mapM_Some.
      eapply Forall2_impl; [exact Htail|]. by intros d' c' <-. }
    exists ((prev && negb current) :: rs). split_and!.
    + simpl. rewrite (just_released_total _ current Hc). simpl.
      rewrite Hprev. simpl. by rewrite Hrs.
    + simpl. unfold count_true in *. rewrite filter_cons.
      destruct prev, current; simpl; by rewrite Hcount.
    + simpl. by rewrite Hlen.
    + done.
Qed.

(** [closed_to_open] counts the positions [k] where state [k] is closed
    and state [k + 1] is open. *)
Lemma transitions_from_offset (l : list bool) (prev : bool) (states : list bool) :
  transitions_from prev states
  = length (filter (λ k, (l ++ prev :: states) !! k = Some true
                         ∧ (l ++ prev :: states) !! S k = Some false)
                   (seq (length l) (length states))).
Proof.
  revert l prev. induction states as [|current rest IH]; intros l prev; [done|].
  cbn [transitions_from length seq]. rewrite filter_cons.
  specialize (IH (l ++ [prev]) current).
  rewrite <- app_assoc, length_app, Nat.add_1_r in IH. simpl in IH. rewrite IH.
  assert (H1 : (l ++ prev :: current :: rest) !! length l = Some prev)
    by (by rewrite list_lookup_middle).
  assert (H2 : (l ++ prev :: current :: rest) !! S (length l) = Some current).
  { rewrite lookup_app_r by lia. by replace (S (length l) - length l)%nat with 1%nat by lia. }
  case_decide as Hd.
  - destruct Hd as [Ha Hb]. rewrite H1 in Ha. rewrite H2 in Hb. by simplify_eq.
  - destruct prev, current; simpl; try done. exfalso. apply Hd. by rewrite H1, H2.
Qed.

Lemma closed_to_open_positions (states : list bool) :
  closed_to_open states
  = length (filter (λ k, states !! k = Some true ∧ states !! S k = Some false)
                   (seq 0 (length states))).
Proof.
  destruct states as [|first rest]; [done|].
  unfold closed_to_open. rewrite (transitions_from_offset [] first rest).
  change (length (first :: rest)) with (S (length rest)).
  rewrite seq_S, filter_app, length_app.
  change ([] ++ first :: rest) with (first :: rest).
  change (length (@nil bool)) with 0%nat.
  rewrite filter_cons, decide_False; [simpl; lia|].
  intros [_ Hlast]. rewrite lookup_ge_None_2 in Hlast; [done|simpl; lia].
Qed.

End Tracker.

(** ** reset *)

Section Reset.
Context `{Collaborators}.

Lemma set_qpos3_sensor (name : string) (x y z : Q) (d d' : MjData) :
  set_qpos3 name x y z d = Some d' → sensor d' = sensor d.
Proof.
  unfold set_qpos3. destruct (joint d !! name) as [qpos|]; simpl; [|done].
  case_decide; [|done]. by intros [= <-].
Qed.

Lemma place_blocks_sensor (random : bool) (block_z : Q) (idx : list nat)
    (d d' : MjData) (g g' : Rng) :
  place_blocks random block_z idx d g = Some (d', g') → sensor d' = sensor d.
Proof.
  revert d g. induction idx as [|i idx IH]; intros d g; simpl.
  - by intros [= <- _].
  - destruct (if random then _ else _) as [block_xy g1].
    destruct (set_qpos3 _ _ _ _ d) as [d1|] eqn:Hset; simpl; [|done].
    intros Hrest. rewrite (IH _ _ Hrest). by eapply set_qpos3_sensor.
Qed.

Lemma read_z_inits_inv (idx : list nat) (d : MjData) (acc zs : list Q) :
  read_z_inits idx d acc = Some zs →
  ∃ tail, zs = acc ++ tail
          ∧ length tail = length idx
          ∧ ∀ k i, idx !! k = Some i →
              ∃ p, sensor d !! (reset_block_name i +:+ "_pos") = Some p
                   ∧ tail !! k = Some (vz p).
Proof.
  revert acc. induction idx as [|i idx IH]; intros acc; simpl.
  - intros [= <-]. exists []. rewrite app_nil_r. split_and!; [done..|].
    intros k i Hk. by rewrite lookup_nil in Hk.
  - destruct (sensor d !! _) as [p|] eqn:Hp; simpl; [|done].
    intros Hrest. destruct (IH _ Hrest) as (tail & -> & Hlen & Hall).
    exists (vz p :: tail). rewrite <- app_assoc. split_and!; [done|by simpl; rewrite Hlen|].
    intros [|k] i' Hk; simpl in *.
    + injection Hk as <-. by exists p.
    + by apply Hall.
Qed.

(** What [reset] leaves behind. *)
Lemma reset_inv (seed : option Z) (self self' : Env) (g g' : Rng)
    (out : Observation * gmap string bool) :
  reset seed self g = Some (out, self', g') →
  let d0 := reset_robot (mj_resetData (_data self)) in
  ∃ zs,
    place_blocks (_random_block_position self) (_block_z self)
                 (seq 0 (num_blocks self)) d0 g = Some (_data self', g')
    ∧ sensor (_data self') = sensor d0
    ∧ _z_inits self' = Some zs
    ∧ length zs = num_blocks self
    ∧ (∀ i, (i < num_blocks self)%nat →
         ∃ p, sensor (_data self') !! (reset_block_name i +:+ "_pos") = Some p
              ∧ zs !! i = Some (vz p))
    ∧ _prev_gripper_closed self' = Some false
    ∧ reward_type self' = reward_type self
    ∧ num_blocks self' = num_blocks self
    ∧ _block_z self' = _block_z self
    ∧ snd out = ∅.
Proof.
  intros Hreset d0. subst d0. unfold reset in Hreset.
  assert (Hcfg : ∀ s : Env, s = super_reset seed self →
    reward_type s = reward_type self ∧ num_blocks s = num_blocks self
    ∧ _block_z s = _block_z self
    ∧ _random_block_position s = _random_block_position self
    ∧ _data s = _data self).
  { intros s ->. by destruct seed. }
  destruct (Hcfg _ eq_refl) as (Hrt & Hn & Hz & Hr & Hd).
  rewrite Hr, Hz, Hn, Hd in Hreset.
  destruct (place_blocks _ _ _ _ g) as [[d1 g1]|] eqn:Hplace; simpl in Hreset; [|done].
  rewrite Hn in Hreset.
  destruct (read_z_inits _ d1 []) as [zs|] eqn:Hzs; simpl in Hreset; [|done].
  destruct (_compute_observation _) as [o|] eqn:Ho; simpl in Hreset; [|done].
  injection Hreset as <- <- <-. simpl.
  destruct (read_z_inits_inv _ _ _ _ Hzs) as (tail & -> & Hlen & Hall).
  simpl. exists tail. rewrite length_seq in Hlen.
  split_and!; try done.
  - by eapply place_blocks_sensor.
  - intros i Hi. apply Hall. by apply lookup_seq_lt.
Qed.

End Reset.

(** ** The success detector *)

Section Detector.
Context `{Collaborators}.

Lemma stack_test_valid (h : Q) (upper lower : vec3) :
  stack_test h upper lower = true ↔ valid_stack h upper lower.
Proof.
  unfold stack_test, valid_stack.
  rewrite !andb_true_iff, !Qltb_lt, xy_dist_ltb_norm by reflexivity.
  rewrite !Qabs_Qlt_condition.
  split.
  - intros ((Hxy & Hz) & (Ht1 & Ht2)). repeat split; try done; qlra.
  - intros (Hxy & Hz & (Ht1 & Ht2)). repeat split; try done; qlra.
Qed.

Lemma valid_stack_needs_gap (h : Q) (upper lower : vec3) :
  vz upper - vz lower <= 0.03 → ¬ valid_stack h upper lower.
Proof. unfold valid_stack. intros Hz (_ & Hgap & _). qlra. Qed.

Lemma stack_inner_spec (positions : list vec3) (h : Q) (i : nat) (jvals : list nat) :
  (i < length positions)%nat →
  Forall (λ j, (j < length positions)%nat) jvals →
  ∃ b, stack_inner positions h i jvals = Some b
       ∧ (b = true ↔ ∃ j, j ∈ jvals ∧ accepts positions h i j).
Proof.
  intros Hi. induction 1 as [|j jvals Hj Hall IH]; simpl.
  - exists false. split; [done|]. split; [done|].
    intros (j & Hin & _). by apply elem_of_nil in Hin.
  - destruct IH as (b & Hb & Hiff).
    destruct (lookup_lt_is_Some_2 _ _ Hi) as [upper Hu].
    destruct (lookup_lt_is_Some_2 _ _ Hj) as [lower Hl].
    case_decide as Hij.
    + exists b. split; [done|]. rewrite Hiff. split.
      * intros (j' & Hin & Hacc). exists j'. split; [by right|done].
      * intros (j' & Hin & Hacc). exists j'. split; [|done].
        apply elem_of_cons in Hin as [->|Hin]; [|done].
        by destruct Hacc as [Hne _].
    + rewrite Hu, Hl. simpl.
      destruct (stack_test h upper lower) eqn:Htest.
      * exists true. split; [done|]. split; [|done]. intros _.
        exists j. split; [by left|]. split; [done|]. by exists upper, lower.
      * exists b. split; [done|]. rewrite Hiff. split.
        -- intros (j' & Hin & Hacc). exists j'. split; [by right|done].
        -- intros (j' & Hin & Hacc). exists j'. split; [|done].
           apply elem_of_cons in Hin as [->|Hin]; [|done].
           destruct Hacc as (_ & u & l & Hu' & Hl' & Ht). congruence.
Qed.

Lemma stack_outer_spec (positions : list vec3) (h : Q) (ivals jvals : list nat) :
  Forall (λ i, (i < length positions)%nat) ivals →
  Forall (λ j, (j < length positions)%nat) jvals →
  ∃ b, stack_outer positions h ivals jvals = Some b
       ∧ (b = true ↔ ∃ i j, i ∈ ivals ∧ j ∈ jvals ∧ accepts positions h i j).
Proof.
  intros Hivals Hjvals. induction Hivals as [|i ivals Hi Hall IH]; simpl.
  - exists false. split; [done|]. split; [done|].
    intros (i & j & Hin & _). by apply elem_of_nil in Hin.
  - destruct (stack_inner_spec positions h i jvals Hi Hjvals) as (b1 & Hb1 & Hiff1).
    destruct IH as (b & Hb & Hiff).
    rewrite Hb1. simpl. destruct b1.
    + exists true. split; [done|]. split; [|done]. intros _.
      destruct (proj1 Hiff1 eq_refl) as (j & Hj & Hacc).
      exists i, j. split; [by left|done].
    + exists b. split; [done|]. rewrite Hiff. split.
      * intros (i' & j & Hin & Hj & Hacc). exists i', j. split; [by right|done].
      * intros (i' & j & Hin & Hj & Hacc).
        apply elem_of_cons in Hin as [->|Hin]; [|by exists i', j].
        assert (false = true) as Habs; [|done].
        apply Hiff1. by exists j.
Qed.

(** A list comprehension over [range(n)]. *)
Lemma mapM_range {A} (f : nat → option A) (n : nat) (l : list A) :
  mapM f (seq 0 n) = Some l →
  length l = n ∧ ∀ i, (i < n)%nat → l !! i = f i.
Proof.
  rewrite mapM_Some. intros Hall. split.
  - rewrite <- (Forall2_length _ _ _ Hall). apply length_seq.
  - intros i Hi.
    destruct (Forall2_lookup_l _ _ _ i i Hall) as (y & Hy & Hf);
      [by apply lookup_seq_lt|]. by rewrite Hy, Hf.
Qed.

Lemma mapM_range_total {A} (f : nat → option A) (n : nat) :
  (∀ i, (i < n)%nat → is_Some (f i)) → is_Some (mapM f (seq 0 n)).
Proof.
  intros Hall. apply mapM_is_Some, Forall_forall.
  intros i Hi. apply elem_of_seq in Hi. apply Hall. lia.
Qed.

Lemma _is_success_prev (b : option bool) (self : Env) :
  _is_success (set_prev_gripper_closed b self) = _is_success self.
Proof. reflexivity. Qed.

(** The detector on well-formed data: it returns, and what it returns. *)
Lemma _is_success_spec (self : Env) :
  names_present (num_blocks self) (_data self) →
  ∃ stacked positions,
    _is_success self = Some stacked
    ∧ mapM (λ i, sensor (_data self) !! (block_name i +:+ "_pos"))
           (seq 0 (num_blocks self)) = Some positions
    ∧ length positions = num_blocks self
    ∧ ∀ ivals jvals,
        (∀ i, i ∈ ivals ↔ (i < num_blocks self)%nat) →
        (∀ j, j ∈ jvals ↔ (j < num_blocks self)%nat) →
        stack_outer positions (_block_z self) ivals jvals = Some stacked
        ∧ (stacked = true ↔
           ∃ i j upper lower,
             i ≠ j ∧ positions !! i = Some upper ∧ positions !! j = Some lower
             ∧ valid_stack (_block_z self) upper lower).
Proof.
  intros (_ & Hnames & _). unfold _is_success.
  destruct (mapM_range_total
    (λ i, sensor (_data self) !! (block_name i +:+ "_pos")) (num_blocks self))
    as [positions Hpos]; [intros i Hi; by apply Hnames|].
  destruct (mapM_range_total
    (λ i, joint (_data self) !! block_name i) (num_blocks self))
    as [qs Hqs]; [intros i Hi; by apply Hnames|].
  rewrite Hpos, Hqs. simpl.
  destruct (mapM_range _ _ _ Hpos) as [Hlen Hlook].
  assert (Hrange : Forall (λ i, (i < length positions)%nat) (seq 0 (num_blocks self))).
  { apply Forall_forall. intros i Hi. apply elem_of_seq in Hi. lia. }
  destruct (stack_outer_spec positions (_block_z self) _ _ Hrange Hrange)
    as (stacked & Hrun & Hiff).
  exists stacked, positions. split_and!; try done.
  intros ivals jvals Hi Hj.
  assert (Hi' : Forall (λ i, (i < length positions)%nat) ivals).
  { apply Forall_forall. intros i Hin. apply Hi in Hin. lia. }
  assert (Hj' : Forall (λ i, (i < length positions)%nat) jvals).
  { apply Forall_forall. intros i Hin. apply Hj in Hin. lia. }
  destruct (stack_outer_spec positions (_block_z self) _ _ Hi' Hj')
    as (b & Hrun' & Hiff').
  assert (Hsame : stacked = true ↔
    ∃ i j upper lower, i ≠ j ∧ positions !! i = Some upper
      ∧ positions !! j = Some lower ∧ valid_stack (_block_z self) upper lower).
  { rewrite Hiff. split.
    - intros (i & j & _ & _ & Hne & u & l & Hu & Hl & Ht).
      exists i, j, u, l. by rewrite <- stack_test_valid.
    - intros (i & j & u & l & Hne & Hu & Hl & Hv).
      exists i, j.
      split; [apply elem_of_seq; apply lookup_lt_Some in Hu; lia|].
      split; [apply elem_of_seq; apply lookup_lt_Some in Hl; lia|].
      split; [done|]. exists u, l. by rewrite stack_test_valid. }
  split; [|done]. rewrite Hrun'. f_equal.
  apply eq_true_iff_eq. rewrite Hiff', Hiff. split.
  - intros (i & j & Hin & Hjn & Hacc). exists i, j.
    rewrite !elem_of_seq. apply Hi in Hin. apply Hj in Hjn.
    split; [lia|]. split; [lia|done].
  - intros (i & j & Hin & Hjn & Hacc). exists i, j.
    apply elem_of_seq in Hin, Hjn.
    split; [apply Hi; lia|]. split; [apply Hj; lia|done].
Qed.

End Detector.

(** ** Reward and step *)

Section Step.
Context `{Collaborators}.

Lemma lift_loop_total (self : Env) (zs : list Q) (i : nat)
    (block_positions : list vec3) (acc : Q) :
  _z_inits self = Some zs →
  (i + length block_positions ≤ length zs)%nat →
  is_Some (lift_loop self i block_positions acc).
Proof.
  intros Hzs. revert i acc.
  induction block_positions as [|pos rest IH]; intros i acc Hlen; simpl in *.
  - by eexists.
  - rewrite Hzs. simpl.
    destruct (lookup_lt_is_Some_2 zs i) as [z0 Hz0]; [lia|].
    rewrite Hz0. simpl. apply IH. lia.
Qed.

Lemma tracker_keeps (self self' : Env) (released : bool) :
  _was_block_just_released self = Some (released, self') →
  reward_type self' = reward_type self
  ∧ num_blocks self' = num_blocks self
  ∧ _block_z self' = _block_z self
  ∧ _z_inits self' = _z_inits self
  ∧ _data self' = _data self
  ∧ _is_success self' = _is_success self.
Proof.
  intros Hrel. apply just_released_inv in Hrel as (c & _ & -> & _). done.
Qed.

Lemma _compute_reward_inv (self self' : Env) (r : Q) :
  _compute_reward self = Some (r, self') →
  ∃ released,
    _was_block_just_released self = Some (released, self')
    ∧ if String.eqb (reward_type self) "dense" then
        ∃ block_positions lift raw,
          mapM (λ i, sensor (_data self) !! (block_name i +:+ "_pos"))
               (seq 0 (num_blocks self)) = Some block_positions
          ∧ lift_loop self 0 block_positions 0.0 = Some lift
          ∧ _is_success self = Some raw
          ∧ r = 0.3 * lift + 0.7 * stack_term released raw
      else
        ∀ raw, _is_success self = Some raw → r = sparse_reward released raw.
Proof.
  unfold _compute_reward. destruct (String.eqb (reward_type self) "dense").
  - destruct (mapM _ _) as [ps|]; simpl; [|done].
    destruct (lift_loop self 0 ps 0.0) as [lift|] eqn:Hlift; simpl; [|done].
    destruct (_was_block_just_released self) as [[released self1]|] eqn:Hrel;
      simpl; [|done].
    destruct (tracker_keeps _ _ _ Hrel) as (_ & _ & _ & _ & _ & Hsucc).
    rewrite Hsucc.
    destruct (_is_success self) as [raw|] eqn:Hraw.
    + destruct released, raw; simpl; intros [= <- <-];
        eexists; (split; [reflexivity|]); exists ps, lift; eexists;
        split_and!; reflexivity || assumption.
    + destruct released; simpl; done.
  - destruct (_was_block_just_released self) as [[released self1]|] eqn:Hrel;
      simpl; [|done].
    destruct (tracker_keeps _ _ _ Hrel) as (_ & _ & _ & _ & _ & Hsucc).
    rewrite Hsucc. destruct released; simpl.
    + destruct (_is_success self) as [raw|]; simpl; [|done].
      intros [= <- <-]. exists true. split; [done|].
      intros raw' [= <-]. by destruct raw.
    + intros [= <- <-]. exists false. split; [done|]. by intros raw _.
Qed.

(** Everything a successful [step] computed. *)
Lemma step_inv (action : Action) (self self' : Env) (res : StepResult) :
  step action self = Some (res, self') →
  let self0 := set_data (apply_action action (_data self)) self in
  ∃ released raw block1_pos o,
    _compute_observation self0 = Some o
    ∧ _compute_reward self0 = Some (rew res, self')
    ∧ _was_block_just_released self0 = Some (released, self')
    ∧ _is_success self0 = Some raw
    ∧ sensor (_data self0) !! "block1_pos" = Some block1_pos
    ∧ (if String.eqb (reward_type self) "dense" then
         ∃ block_positions lift,
           mapM (λ i, sensor (_data self0) !! (block_name i +:+ "_pos"))
                (seq 0 (num_blocks self)) = Some block_positions
           ∧ lift_loop self0 0 block_positions 0.0 = Some lift
           ∧ rew res = 0.3 * lift + 0.7 * stack_term released raw
       else rew res = sparse_reward released raw)
    ∧ let success :=
        if String.eqb (reward_type self) "sparse"
        then Qeq_bool (rew res) 1.0 else raw in
      res = mkStepResult o (rew res) (success || exceeded_bounds block1_pos)
              false {["succeed" := success]}.
Proof.
  intros Hstep self0. unfold step in Hstep. fold self0 in Hstep.
  destruct (_compute_observation self0) as [o|] eqn:Ho; simpl in Hstep; [|done].
  destruct (_compute_reward self0) as [[r self1]|] eqn:Hrew; simpl in Hstep; [|done].
  destruct (_compute_reward_inv _ _ _ Hrew) as (released & Hrel & Hshape).
  destruct (tracker_keeps _ _ _ Hrel) as (Hrt & _ & _ & _ & Hd & Hsucc).
  rewrite Hsucc, Hrt, Hd in Hstep.
  destruct (_is_success self0) as [raw|] eqn:Hraw; simpl in Hstep; [|done].
  destruct (sensor (apply_action action (_data self)) !! "block1_pos")
    as [p1|] eqn:Hp1; simpl in Hstep; [|done].
  injection Hstep as <- <-. simpl.
  exists released, raw, p1, o. split_and!; try done.
  change (reward_type self0) with (reward_type self) in Hshape.
  destruct (String.eqb (reward_type self) "dense").
  - destruct Hshape as (ps & lift & raw' & Hps & Hlift & Hraw' & ->).
    exists ps, lift. by simplify_eq.
  - by apply Hshape.
Qed.

(** On well-formed data [step] returns. *)
Lemma step_total (action : Action) (self : Env) :
  names_present (num_blocks self) (apply_action action (_data self)) →
  (reward_type self = "dense" → baseline_ready self) →
  is_Some (step action self).
Proof.
  intros Hnames Hbase. unfold step.
  assert (Hnames0 : ∀ s, s = set_data (apply_action action (_data self)) self →
    names_present (num_blocks s) (_data s)
    ∧ (reward_type s = "dense" → baseline_ready s)) by (by intros s ->).
  remember (set_data (apply_action action (_data self)) self) as self0 eqn:E.
  destruct (Hnames0 self0 eq_refl) as [Hn0 Hb0]. clear E Hnames0 Hnames Hbase.
  destruct (_is_success_spec self0 Hn0) as (raw & ps & Hraw & Hps & Hlen & _).
  destruct Hn0 as ([p1 Hp1] & _ & (q & qs & Hq)).
  assert (Hobs : is_Some (_compute_observation self0)).
  { unfold _compute_observation. rewrite Hp1. simpl.
    destruct (image_obs self0); [by destruct (render _)|done]. }
  destruct Hobs as [o Ho]. rewrite Ho. simpl.
  assert (Hc : _is_gripper_closed self0 = Some (Qltb 0.1 q)).
  { unfold _is_gripper_closed. by rewrite Hq. }
  pose proof (just_released_total self0 _ Hc) as Hrel.
  destruct (tracker_keeps _ _ _ Hrel) as (Hrt & _ & _ & _ & Hd & Hsucc).
  rewrite Hraw in Hsucc.
  assert (Hrew : ∃ r, _compute_reward self0
                      = Some (r, set_prev_gripper_closed (Some (Qltb 0.1 q)) self0)).
  { unfold _compute_reward. rewrite Hrel.
    destruct (String.eqb (reward_type self0) "dense") eqn:Hmode.
    - apply String.eqb_eq in Hmode. destruct (Hb0 Hmode) as (zs & Hzs & Hcover).
      rewrite Hps. simpl.
      destruct (lift_loop_total self0 zs 0 ps 0.0 Hzs) as [lift Hlift];
        [simpl; rewrite Hlen; exact Hcover|].
      rewrite Hlift. simpl. rewrite Hsucc.
      destruct (match _prev_gripper_closed self0 with
                | Some prev => prev && negb (Qltb 0.1 q) | None => false end);
        simpl; destruct raw; by eexists.
    - simpl. rewrite Hsucc.
      destruct (match _prev_gripper_closed self0 with
                | Some prev => prev && negb (Qltb 0.1 q) | None => false end);
        simpl; by eexists. }
  destruct Hrew as [r Hrew]. rewrite Hrew. simpl.
  rewrite Hsucc. simpl. rewrite Hp1. simpl. done.
Qed.

(** [step] on well-formed data, in one statement: it returns, and the
    parts of its result in terms of the tracker, the detector and the
    bounds test. *)
Lemma step_spec (action : Action) (self : Env) :
  names_present (num_blocks self) (apply_action action (_data self)) →
  (reward_type self = "dense" → baseline_ready self) →
  ∃ res current raw block1_pos,
    step action self
    = Some (res, set_prev_gripper_closed (Some current)
                   (set_data (apply_action action (_data self)) self))
    ∧ _is_gripper_closed (set_data (apply_action action (_data self)) self)
      = Some current
    ∧ _is_success (set_data (apply_action action (_data self)) self) = Some raw
    ∧ sensor (apply_action action (_data self)) !! "block1_pos" = Some block1_pos
    ∧ (if String.eqb (reward_type self) "dense" then
         ∃ block_positions lift,
           mapM (λ i, sensor (apply_action action (_data self))
                        !! (block_name i +:+ "_pos"))
                (seq 0 (num_blocks self)) = Some block_positions
           ∧ lift_loop (set_data (apply_action action (_data self)) self)
                       0 block_positions 0.0 = Some lift
           ∧ rew res
             = 0.3 * lift
               + 0.7 * stack_term
                         (match _prev_gripper_closed self with
                          | Some prev => prev && negb current
                          | None => false
                          end) raw
       else rew res
            = sparse_reward (match _prev_gripper_closed self with
                             | Some prev => prev && negb current
                             | None => false
                             end) raw)
    ∧ info res !! "succeed"
      = Some (if String.eqb (reward_type self) "sparse"
              then Qeq_bool (rew res) 1.0 else raw)
    ∧ terminated res
      = (if String.eqb (reward_type self) "sparse"
         then Qeq_bool (rew res) 1.0 else raw)
        || exceeded_bounds block1_pos
    ∧ truncated res = false.
Proof.
  intros Hnames Hbase.
  destruct (step_total action self Hnames Hbase) as [[res self'] Hstep].
  destruct (step_inv _ _ _ _ Hstep)
    as (released & raw & p1 & o & _ & _ & Hrel & Hraw & Hp1 & Hrew & Hres).
  destruct (just_released_inv _ _ _ Hrel) as (current & Hc & -> & ->).
  exists res, current, raw, p1. split_and!; try done.
  - rewrite Hres at 1. simpl. apply lookup_singleton_eq.
  - by rewrite Hres at 1.
  - by rewrite Hres.
Qed.

End Step.

(** ** The lift term of the dense reward *)

Section Lift.
Context `{Collaborators}.

Lemma np_clip_eq (x y : Q) : x == y → np_clip x 0.0 1.0 == np_clip y 0.0 1.0.
Proof. intros Hxy. apply Qle_antisym; apply np_clip_mono; qlra. Qed.

Lemma py_max_eq (a a' b b' : Q) : a == a' → b == b' → py_max a b == py_max a' b'.
Proof. intros Ha Hb. apply Qle_antisym; apply py_max_mono; qlra. Qed.

Lemma py_max_absorb (a b : Q) : b <= a → py_max a b == a.
Proof. intros Hb. unfold py_max. qcases; qlra. Qed.

Lemma py_max_absorb_l (b : Q) : 0 <= b <= 1 → py_max 0.0 b == b.
Proof. intros Hb. unfold py_max. qcases; qlra. Qed.

Lemma Qdiv_le_mono (a b c : Q) : 0 < c → a <= b → a / c <= b / c.
Proof.
  intros Hc Hab. unfold Qdiv. apply Qmult_le_compat_r; [done|].
  by apply Qlt_le_weak, Qinv_lt_0_compat.
Qed.

Lemma clipped_lift_mono (h z0 z1 z2 : Q) :
  0 < h → z1 <= z2 → clipped_lift h z0 z1 <= clipped_lift h z0 z2.
Proof.
  intros Hh Hz. apply np_clip_mono, Qdiv_le_mono; qlra.
Qed.

Lemma clipped_lift_top (h z0 z : Q) :
  0 < h → z0 + 2 * h <= z → clipped_lift h z0 z == 1.
Proof.
  intros Hh Hz. apply np_clip_top, Qle_shift_div_l; qlra.
Qed.

Lemma clipped_lift_baseline (h z0 z : Q) : z == z0 → clipped_lift h z0 z == 0.
Proof.
  intros Hz. apply np_clip_bottom. unfold Qdiv.
  assert (z - z0 == 0) as -> by qlra. qlra.
Qed.

(** Objects at their baselines leave the running maximum as it is. *)
Lemma lift_loop_at_baseline (self : Env) (zs : list Q) (ps : list vec3)
    (i : nat) (acc r : Q) :
  _z_inits self = Some zs →
  0 <= acc →
  (∀ idx q zi, ps !! idx = Some q → zs !! (i + idx)%nat = Some zi → vz q == zi) →
  lift_loop self i ps acc = Some r →
  r == acc.
Proof.
  intros Hzs. revert i acc.
  induction ps as [|pos rest IH]; intros i acc Hacc Hbase; simpl.
  - by intros [= <-].
  - rewrite Hzs. simpl. destruct (zs !! i) as [zi|] eqn:Hzi; simpl; [|done].
    intros Hrun. fold (clipped_lift (_block_z self) zi (vz pos)) in Hrun.
    assert (Hpos : vz pos == zi).
    { apply (Hbase 0%nat); [done|]. by rewrite Nat.add_0_r. }
    pose proof (clipped_lift_baseline (_block_z self) _ _ Hpos) as H0.
    pose proof (py_max_absorb acc (clipped_lift (_block_z self) zi (vz pos))) as Habs.
    apply Qeq_trans with (py_max acc (clipped_lift (_block_z self) zi (vz pos)));
      [|apply Habs; qlra].
    apply (IH (S i)); [| |exact Hrun].
    + pose proof (py_max_ge_l acc (clipped_lift (_block_z self) zi (vz pos))). qlra.
    + intros idx q zi' Hq Hz'. apply (Hbase (S idx)); [done|].
      by rewrite <- Nat.add_succ_comm.
Qed.

(** One object off its baseline: the loop returns the maximum of the
    start value and that object's clipped lift. *)
Lemma lift_loop_one_raised (self : Env) (zs : list Q) (ps : list vec3)
    (i k : nat) (p : vec3) (z0 acc r : Q) :
  _z_inits self = Some zs →
  0 <= acc →
  ps !! k = Some p →
  zs !! (i + k)%nat = Some z0 →
  (∀ idx q zi, idx ≠ k → ps !! idx = Some q → zs !! (i + idx)%nat = Some zi →
               vz q == zi) →
  lift_loop self i ps acc = Some r →
  r == py_max acc (clipped_lift (_block_z self) z0 (vz p)).
Proof.
  intros Hzs. revert i k acc.
  induction ps as [|pos rest IH]; intros i k acc Hacc Hp Hz0 Hbase; simpl.
  - by rewrite lookup_nil in Hp.
  - rewrite Hzs. simpl. destruct (zs !! i) as [zi|] eqn:Hzi; simpl; [|done].
    intros Hrun. fold (clipped_lift (_block_z self) zi (vz pos)) in Hrun.
    destruct k as [|k]; simpl in Hp.
    + injection Hp as ->. rewrite Nat.add_0_r, Hzi in Hz0. injection Hz0 as ->.
      eapply lift_loop_at_baseline; [exact Hzs| | |exact Hrun].
      * pose proof (py_max_ge_l acc (clipped_lift (_block_z self) z0 (vz p))). qlra.
      * intros idx q zi' Hq Hz'. apply (Hbase (S idx)); [done|done|].
        by rewrite <- Nat.add_succ_comm.
    + assert (Hpos : vz pos == zi).
      { apply (Hbase 0%nat); [done|done|]. by rewrite Nat.add_0_r. }
      pose proof (clipped_lift_baseline (_block_z self) _ _ Hpos) as H0.
      assert (Hacc1 : py_max acc (clipped_lift (_block_z self) zi (vz pos)) == acc)
        by (apply py_max_absorb; qlra).
      apply Qeq_trans with
        (py_max (py_max acc (clipped_lift (_block_z self) zi (vz pos)))
                (clipped_lift (_block_z self) z0 (vz p)));
        [|by apply py_max_eq].
      apply (IH (S i) k); [qlra|done| | |exact Hrun].
      * by rewrite Nat.add_succ_comm.
      * intros idx q zi' Hne Hq Hz'. apply (Hbase (S idx)); [lia|done|].
        by rewrite <- Nat.add_succ_comm.
Qed.

End Lift.

(** * Properties of step, the episode and reset *)

(** Closed goals are decided by evaluation. *)
Ltac by_vm := vm_compute; reflexivity.

(** [names_present] on a concrete scene, by cases of [i < n] for a small
    [n]. *)
Ltac names_by_cases :=
  split; [eexists; by_vm|]; split;
  [ intros i Hi;
    do 3 (destruct i as [|i]; [split; eexists; by_vm|]);
    exfalso; vm_compute in Hi; lia
  | eexists _, _; by_vm ].

Section StepClaims.
Context `{Collaborators}.

Lemma sparse_is_not_dense (self : Env) :
  String.eqb (reward_type self) "sparse" = true →
  String.eqb (reward_type self) "dense" = false.
Proof. intros Hs. apply String.eqb_eq in Hs. by rewrite Hs. Qed.

Lemma sparse_reward_is_one (released raw : bool) :
  Qeq_bool (sparse_reward released raw) 1.0 = released && raw.
Proof. by destruct released, raw. Qed.

(** C1, as amended.  [info.succeed] is the success value the step also
    uses for termination: in sparse mode it is [reward == 1.0], that is,
    true iff the tracker reported a release on this step and the raw
    detector reports a stack; in every other mode it is the raw
    detector's boolean. *)
Theorem step_succeed_by_mode (action : Action) (self : Env) :
  names_present (num_blocks self) (apply_action action (_data self)) →
  (reward_type self = "dense" → baseline_ready self) →
  let self0 := set_data (apply_action action (_data self)) self in
  ∃ res self' released raw,
    step action self = Some (res, self')
    ∧ _was_block_just_released self0 = Some (released, self')
    ∧ _is_success self0 = Some raw
    ∧ info res !! "succeed"
      = Some (if String.eqb (reward_type self) "sparse"
              then Qeq_bool (rew res) 1.0 else raw)
    ∧ (reward_type self = "sparse" →
       Qeq_bool (rew res) 1.0 = released && raw
       ∧ info res !! "succeed" = Some (released && raw))
    ∧ (reward_type self ≠ "sparse" → info res !! "succeed" = Some raw).
Proof.
  intros Hnames Hbase self0.
  destruct (step_total action self Hnames Hbase) as [[res self'] Hstep].
  destruct (step_inv _ _ _ _ Hstep)
    as (released & raw & p1 & o & _ & _ & Hrel & Hraw & _ & Hrew & Hres).
  exists res, self', released, raw.
  assert (Hinfo : info res !! "succeed"
                  = Some (if String.eqb (reward_type self) "sparse"
                          then Qeq_bool (rew res) 1.0 else raw)).
  { rewrite Hres at 1. simpl. apply lookup_singleton_eq. }
  split_and!; try done.
  - intros Hs. rewrite Hinfo. apply String.eqb_eq in Hs. rewrite Hs.
    rewrite (sparse_is_not_dense _ Hs) in Hrew.
    rewrite Hrew, sparse_reward_is_one. done.
  - intros Hs. rewrite Hinfo. apply String.eqb_neq in Hs. by rewrite Hs.
Qed.

Lemma exceeded_bounds_spec (p : vec3) :
  exceeded_bounds p = true ↔ outside_expanded_bounds p.
Proof.
  unfold exceeded_bounds, outside_expanded_bounds. simpl.
  rewrite !orb_true_iff, !Qltb_lt. tauto.
Qed.

(** C5.  [terminated] is [success OR exceeded_bounds]; in sparse mode
    the success that counts also needs [reward == 1.0], so that a stack
    with the gripper still closed does not terminate the episode;
    [exceeded_bounds] holds iff a planar coordinate of the reference
    object (object 0, sensor [block1_pos]) is outside the sampling
    bounds widened by 0.05; [truncated] is always false. *)
Theorem step_terminated (action : Action) (self : Env) :
  names_present (num_blocks self) (apply_action action (_data self)) →
  (reward_type self = "dense" → baseline_ready self) →
  let self0 := set_data (apply_action action (_data self)) self in
  ∃ res self' raw block1_pos,
    step action self = Some (res, self')
    ∧ _is_success self0 = Some raw
    ∧ sensor (_data self0) !! (block_name 0 +:+ "_pos") = Some block1_pos
    ∧ terminated res
      = (if String.eqb (reward_type self) "sparse"
         then raw && Qeq_bool (rew res) 1.0 else raw)
        || exceeded_bounds block1_pos
    ∧ (exceeded_bounds block1_pos = true ↔ outside_expanded_bounds block1_pos)
    ∧ truncated res = false
    ∧ (reward_type self = "sparse" →
       _is_gripper_closed self0 = Some true →
       terminated res = exceeded_bounds block1_pos).
Proof.
  intros Hnames Hbase self0.
  destruct (step_total action self Hnames Hbase) as [[res self'] Hstep].
  destruct (step_inv _ _ _ _ Hstep)
    as (released & raw & p1 & o & _ & _ & Hrel & Hraw & Hp1 & Hrew & Hres).
  exists res, self', raw, p1.
  assert (Hsparse : String.eqb (reward_type self) "sparse" = true →
                    Qeq_bool (rew res) 1.0 = released && raw).
  { intros Hs. rewrite (sparse_is_not_dense _ Hs) in Hrew.
    by rewrite Hrew, sparse_reward_is_one. }
  split_and!; try done.
  - rewrite Hres at 1. simpl.
    destruct (String.eqb (reward_type self) "sparse") eqn:Hs; [|done].
    rewrite (Hsparse eq_refl). by destruct released, raw.
  - apply exceeded_bounds_spec.
  - by rewrite Hres.
  - intros Hs Hclosed. apply String.eqb_eq in Hs.
    rewrite Hres at 1. simpl. rewrite Hs, (Hsparse Hs).
    apply just_released_inv in Hrel as (c & Hc & _ & ->).
    assert (Some c = Some true) as [= ->] by (rewrite <- Hc; exact Hclosed).
    destruct (_prev_gripper_closed _) as [[]|]; done.
Qed.

(** C10.  In every mode a step runs the tracker once, on the state the
    step started from: the environment after the step is the
    environment after one call of [_was_block_just_released] (with the
    new physics data), the value that call returned is computed from
    the old [_prev_gripper_closed] and is the one the reward uses, and
    [_prev_gripper_closed] is then the current gripper state.  Apart
    from the physics data, [_prev_gripper_closed] is the only attribute
    that changes: [_z_inits], the reward mode, the number of blocks and
    the half-height are as before. *)
Theorem step_tracker_once (action : Action) (self : Env) :
  names_present (num_blocks self) (apply_action action (_data self)) →
  (reward_type self = "dense" → baseline_ready self) →
  let self0 := set_data (apply_action action (_data self)) self in
  ∃ res self' current raw,
    step action self = Some (res, self')
    ∧ _is_gripper_closed self0 = Some current
    ∧ _is_success self0 = Some raw
    ∧ let released := match _prev_gripper_closed self with
                      | Some prev => prev && negb current
                      | None => false
                      end in
      _was_block_just_released self0 = Some (released, self')
      ∧ (if String.eqb (reward_type self) "dense"
         then ∃ block_positions lift,
                lift_loop self0 0 block_positions 0.0 = Some lift
                ∧ rew res = 0.3 * lift + 0.7 * stack_term released raw
         else rew res = sparse_reward released raw)
      ∧ self' = set_prev_gripper_closed (Some current) self0
      ∧ _prev_gripper_closed self' = Some current
      ∧ _z_inits self' = _z_inits self
      ∧ reward_type self' = reward_type self
      ∧ num_blocks self' = num_blocks self
      ∧ _block_z self' = _block_z self.
Proof.
  intros Hnames Hbase self0.
  destruct (step_total action self Hnames Hbase) as [[res self'] Hstep].
  destruct (step_inv _ _ _ _ Hstep)
    as (released & raw & p1 & o & _ & _ & Hrel & Hraw & _ & Hrew & _).
  destruct (just_released_inv _ _ _ Hrel) as (current & Hc & -> & ->).
  exists res, (set_prev_gripper_closed (Some current) self0), current, raw.
  split_and!; try done. intros released.
  split_and!; try done.
  destruct (String.eqb (reward_type self) "dense"); [|done].
  destruct Hrew as (ps & lift & _ & Hlift & ->). by exists ps, lift.
Qed.

End StepClaims.

Section EpisodeClaims.
Context `{Collaborators}.

Lemma transitions_from_open (states : list bool) :
  transitions_from false states = closed_to_open states.
Proof. by destruct states. Qed.

(** C6.  In an episode (the state [reset] leaves, then one call of the
    tracker per step), for every finite sequence of snapshots with
    gripper states [states], the tracker returns one value per step,
    the number of steps on which it returns true is the number of
    closed-to-open transitions of [states] (the positions [k] where
    state [k] is closed and state [k + 1] is open), and the first value
    is false. *)
Theorem just_released_counts_transitions
    (seed : option Z) (fresh self : Env) (g g' : Rng)
    (out : Observation * gmap string bool)
    (snapshots : list MjData) (states : list bool) :
  reset seed fresh g = Some (out, self, g') →
  gripper_states self snapshots = Some states →
  ∃ rs, release_trace self snapshots = Some rs
        ∧ length rs = length snapshots
        ∧ count_true rs = closed_to_open states
        ∧ count_true rs
          = length (filter (λ k, states !! k = Some true
                                 ∧ states !! S k = Some false)
                           (seq 0 (length states)))
        ∧ ∀ r, rs !! 0%nat = Some r → r = false.
Proof.
  intros Hreset Hstates.
  destruct (reset_inv _ _ _ _ _ _ Hreset) as (zs & _ & _ & _ & _ & _ & Hprev & _).
  destruct (release_trace_from self snapshots false states Hprev Hstates)
    as (rs & Hrs & Hcount & Hlen & Hfirst).
  exists rs. split_and!; try done.
  - by rewrite Hcount, transitions_from_open.
  - by rewrite Hcount, transitions_from_open, closed_to_open_positions.
  - intros r Hr. rewrite Hfirst in Hr.
    destruct (states !! 0%nat); simpl in Hr; by simplify_eq.
Qed.

(** C7.  On data that has the sensors and joints of the N objects, the
    detector returns, and it returns true iff some ordered pair of
    distinct indices [(i, j)] has planar distance below 0.030, vertical
    difference above 0.03 and vertical difference within 0.05 of twice
    the half-height.  The result is the same for every order in which
    the two loops enumerate the indices.  A pair at the same height
    (in particular two objects at identical positions) is not a valid
    stack, so objects that are pairwise no more than 0.03 apart in
    height are not reported as stacked, and with one object the
    detector returns false. *)
Theorem is_success_iff_valid_pair (self : Env) :
  names_present (num_blocks self) (_data self) →
  ∃ stacked positions,
    _is_success self = Some stacked
    ∧ mapM (λ i, sensor (_data self) !! (block_name i +:+ "_pos"))
           (seq 0 (num_blocks self)) = Some positions
    ∧ length positions = num_blocks self
    ∧ (stacked = true ↔
       ∃ i j upper lower,
         i ≠ j ∧ positions !! i = Some upper ∧ positions !! j = Some lower
         ∧ valid_stack (_block_z self) upper lower)
    ∧ (∀ ivals jvals,
         ivals ≡ₚ seq 0 (num_blocks self) →
         jvals ≡ₚ seq 0 (num_blocks self) →
         stack_outer positions (_block_z self) ivals jvals = Some stacked)
    ∧ (∀ upper lower,
         vz upper - vz lower == 0 → ¬ valid_stack (_block_z self) upper lower)
    ∧ ((∀ i j upper lower,
          i ≠ j → positions !! i = Some upper → positions !! j = Some lower →
          vz upper - vz lower <= 0.03) →
       stacked = false)
    ∧ (num_blocks self = 1%nat → stacked = false).
Proof.
  intros Hnames.
  destruct (_is_success_spec self Hnames) as (stacked & ps & Hrun & Hps & Hlen & Horder).
  assert (Hseq : ∀ i, i ∈ seq 0 (num_blocks self) ↔ (i < num_blocks self)%nat).
  { intros i. rewrite elem_of_seq. lia. }
  destruct (Horder _ _ Hseq Hseq) as [_ Hiff].
  assert (Hflat : (∀ i j upper lower,
                     i ≠ j → ps !! i = Some upper → ps !! j = Some lower →
                     vz upper - vz lower <= 0.03) → stacked = false).
  { intros Hgap. apply not_true_is_false. rewrite Hiff.
    intros (i & j & u & l & Hne & Hu & Hl & Hv).
    exact (valid_stack_needs_gap (_block_z self) u l (Hgap i j u l Hne Hu Hl) Hv). }
  exists stacked, ps. split_and!; try done.
  - intros ivals jvals Hi Hj. apply Horder.
    + intros i. by rewrite Hi.
    + intros j. by rewrite Hj.
  - intros upper lower Hz. apply valid_stack_needs_gap. qlra.
  - intros Hone. apply Hflat. intros i j u l Hne Hu Hl.
    apply lookup_lt_Some in Hu, Hl. lia.
Qed.

(** C8.  A perfect stack: two tracked objects with planar distance
    exactly 0 and vertical difference exactly twice the half-height.
    Whichever of the two indices the loops meet first, if one ordering
    of the pair passes the pair test the detector returns true.  The
    ordering upper-over-lower passes exactly when twice the half-height
    exceeds the minimal gap 0.03; the reversed ordering never passes. *)
Theorem perfect_stack_is_success (self : Env) (i j : nat) (upper lower : vec3) :
  names_present (num_blocks self) (_data self) →
  (i < num_blocks self)%nat → (j < num_blocks self)%nat → i ≠ j →
  sensor (_data self) !! (block_name i +:+ "_pos") = Some upper →
  sensor (_data self) !! (block_name j +:+ "_pos") = Some lower →
  vx upper == vx lower → vy upper == vy lower →
  vz upper - vz lower == 2 * _block_z self →
  (stack_test (_block_z self) upper lower = true ↔ 0.03 < 2 * _block_z self)
  ∧ stack_test (_block_z self) lower upper = false
  ∧ (stack_test (_block_z self) upper lower = true
     ∨ stack_test (_block_z self) lower upper = true →
     _is_success self = Some true).
Proof.
  intros Hnames Hi Hj Hne Hu Hl Hx Hy Hz.
  assert (Hxy : xy_sq upper lower == 0) by (unfold xy_sq; rewrite Hx, Hy; ring).
  assert (Hyx : xy_sq lower upper == 0) by (unfold xy_sq; rewrite Hx, Hy; ring).
  assert (Hup : stack_test (_block_z self) upper lower = true
                ↔ 0.03 < 2 * _block_z self).
  { unfold stack_test, xy_dist_ltb.
    rewrite !andb_true_iff, !Qltb_lt, Qabs_Qlt_condition, Hxy. split.
    - intros ((_ & Hgap) & _). qlra.
    - intros Hh. repeat split; qlra. }
  assert (Hdown : stack_test (_block_z self) lower upper = false).
  { apply not_true_is_false. unfold stack_test.
    rewrite !andb_true_iff, !Qltb_lt, Qabs_Qlt_condition.
    intros ((_ & Hgap) & (Hlo & Hhi)). qlra. }
  split_and!; try done.
  intros [Hpass|Hpass]; [|by rewrite Hdown in Hpass].
  destruct (_is_success_spec self Hnames) as (stacked & ps & -> & Hps & Hlen & Horder).
  assert (Hseq : ∀ i, i ∈ seq 0 (num_blocks self) ↔ (i < num_blocks self)%nat).
  { intros k. rewrite elem_of_seq. lia. }
  destruct (Horder _ _ Hseq Hseq) as [_ Hiff].
  f_equal. apply Hiff.
  destruct (mapM_range _ _ _ Hps) as [_ Hlook].
  exists i, j, upper, lower. rewrite !Hlook by done.
  split_and!; try done. by apply stack_test_valid.
Qed.

(** C9.  The lift term of the dense reward ([lift_loop] from index 0
    and maximum 0.0) as a function of the height [z] of one object [k],
    every other object being at its baseline: it is the clipped
    normalised lift of that object, hence non-decreasing in [z], and it
    is 1 for every [z] at or beyond the baseline plus twice the
    half-height. *)
Theorem lift_term_single_object (self : Env) (zs : list Q)
    (positions : list vec3) (k : nat) (p : vec3) (z0 : Q) :
  0 < _block_z self →
  _z_inits self = Some zs →
  length positions = length zs →
  positions !! k = Some p →
  zs !! k = Some z0 →
  (∀ i q zi, i ≠ k → positions !! i = Some q → zs !! i = Some zi → vz q == zi) →
  let lift_term := λ z, lift_loop self 0 (<[k := with_height z p]> positions) 0.0 in
  (∀ z, ∃ l, lift_term z = Some l ∧ l == clipped_lift (_block_z self) z0 z)
  ∧ (∀ z1 z2 l1 l2,
       z1 <= z2 → lift_term z1 = Some l1 → lift_term z2 = Some l2 → l1 <= l2)
  ∧ (∀ z l, z0 + 2 * _block_z self <= z → lift_term z = Some l → l == 1).
Proof.
  intros Hh Hzs Hlen Hp Hz0 Hbase lift_term.
  assert (Hval : ∀ z l, lift_term z = Some l →
                        l == clipped_lift (_block_z self) z0 z).
  { intros z l Hl.
    assert (Hk : (k < length positions)%nat) by by eapply lookup_lt_Some.
    apply Qeq_trans with (py_max 0.0 (clipped_lift (_block_z self) z0 z));
      [|apply py_max_absorb_l, np_clip_range].
    apply (lift_loop_one_raised self zs (<[k := with_height z p]> positions)
             0 k (with_height z p) z0 0.0 l Hzs).
    - qlra.
    - by apply list_lookup_insert_eq.
    - done.
    - intros idx q zi Hne Hq Hzi. rewrite list_lookup_insert_ne in Hq by done.
      by eapply Hbase.
    - exact Hl. }
  split_and!.
  - intros z.
    destruct (lift_loop_total self zs 0 (<[k := with_height z p]> positions) 0.0 Hzs)
      as [l Hl]; [rewrite length_insert; simpl; lia|].
    exists l. split; [done|]. by apply Hval.
  - intros z1 z2 l1 l2 Hz Hl1 Hl2.
    rewrite (Hval _ _ Hl1), (Hval _ _ Hl2). by apply clipped_lift_mono.
  - intros z l Hz Hl. rewrite (Hval _ _ Hl). by apply clipped_lift_top.
Qed.

End EpisodeClaims.

Section ResetClaims.
Context `{Collaborators}.

Lemma reset_block_name_0 : reset_block_name 0 = "block1".
Proof. reflexivity. Qed.

Lemma reset_block_name_1 : reset_block_name 1 = "block1".
Proof. vm_compute. reflexivity. Qed.

Lemma block_name_1 : block_name 1 +:+ "_pos" = "block2_pos".
Proof. vm_compute. reflexivity. Qed.

Lemma set_qpos3_inv (name : string) (x y z : Q) (d d' : MjData) :
  set_qpos3 name x y z d = Some d' →
  ∃ qpos, joint d !! name = Some qpos
          ∧ joint d' = <[name := [x; y; z] ++ drop 3 qpos]> (joint d).
Proof.
  unfold set_qpos3. destruct (joint d !! name) as [qpos|]; simpl; [|done].
  case_decide; [|done]. intros [= <-]. by exists qpos.
Qed.

(** C2 (the code at the claim's scenario).  With two blocks and
    randomized placement off, both iterations of the placement loop
    write joint [block1]: after [reset] it is at
    [(0.5, -0.1 + 1 * 0.1, h)], that is [(0.5, 0.0, h)], and joint
    [block2] is where [reset_robot] left it. *)
Theorem reset_fixed_placement_two_blocks (seed : option Z) (self self' : Env)
    (g g' : Rng) (out : Observation * gmap string bool) :
  num_blocks self = 2%nat →
  _random_block_position self = false →
  reset seed self g = Some (out, self', g') →
  (∃ y rest, joint (_data self') !! "block1" = Some ([0.5; y; _block_z self] ++ rest)
             ∧ y == 0.0)
  ∧ joint (_data self') !! "block2"
    = joint (reset_robot (mj_resetData (_data self))) !! "block2".
Proof.
  intros Hn Hfixed Hreset.
  destruct (reset_inv _ _ _ _ _ _ Hreset) as (zs & Hplace & _).
  rewrite Hn, Hfixed in Hplace. simpl in Hplace.
  rewrite reset_block_name_0, reset_block_name_1 in Hplace.
  destruct (set_qpos3 "block1" _ _ _ _) as [d1|] eqn:H1; simpl in Hplace; [|done].
  destruct (set_qpos3 "block1" _ _ _ d1) as [d2|] eqn:H2; simpl in Hplace; [|done].
  injection Hplace as <- <-.
  apply set_qpos3_inv in H1 as (q1 & _ & Hj1).
  apply set_qpos3_inv in H2 as (q2 & _ & Hj2).
  rewrite Hj2, Hj1. split.
  - eexists _, _. rewrite lookup_insert_eq. split; reflexivity.
  - by rewrite !lookup_insert_ne.
Qed.

(** C3 (the code at two or more blocks).  After [reset], [_z_inits] has
    one entry per block, but entry 1 is, like entry 0, the height read
    from sensor [block1_pos], while index 1 of the dense loop reads
    sensor [block2_pos]. *)
Theorem reset_baseline_second_entry (seed : option Z) (self self' : Env)
    (g g' : Rng) (out : Observation * gmap string bool) :
  (2 ≤ num_blocks self)%nat →
  reset seed self g = Some (out, self', g') →
  ∃ zs p1,
    _z_inits self' = Some zs
    ∧ length zs = num_blocks self
    ∧ sensor (_data self') !! "block1_pos" = Some p1
    ∧ zs !! 0%nat = Some (vz p1)
    ∧ zs !! 1%nat = Some (vz p1)
    ∧ block_name 1 +:+ "_pos" = "block2_pos".
Proof.
  intros Hn Hreset.
  destruct (reset_inv _ _ _ _ _ _ Hreset)
    as (zs & _ & _ & Hzs & Hlen & Hentries & _).
  destruct (Hentries 0%nat) as (p0 & Hp0 & Hz0); [lia|].
  destruct (Hentries 1%nat) as (p1 & Hp1 & Hz1); [lia|].
  rewrite reset_block_name_0 in Hp0. rewrite reset_block_name_1 in Hp1.
  assert (p1 = p0) as -> by congruence.
  exists zs, p0. split_and!; done || apply block_name_1.
Qed.

(** The placement of [reset] does not depend on the seed: the samples
    come from the module-level generator state [g], which seeding the
    instance's generator does not touch. *)
Lemma reset_placement_ignores_seed (seed1 seed2 : option Z) (self : Env) (g : Rng) :
  (λ '(_, self', g'), (_data self', g')) <$> reset seed1 self g
  = (λ '(_, self', g'), (_data self', g')) <$> reset seed2 self g.
Proof.
  unfold reset.
  assert (Hcfg : ∀ seed,
    num_blocks (super_reset seed self) = num_blocks self
    ∧ _block_z (super_reset seed self) = _block_z self
    ∧ _random_block_position (super_reset seed self) = _random_block_position self
    ∧ _data (super_reset seed self) = _data self
    ∧ image_obs (super_reset seed self) = image_obs self) by (by intros []).
  destruct (Hcfg seed1) as (-> & -> & -> & -> & Hi1).
  destruct (Hcfg seed2) as (-> & -> & -> & -> & Hi2).
  destruct (place_blocks _ _ _ _ g) as [[d1 g1]|]; simpl; [|done].
  rewrite !(proj1 (Hcfg _)).
  destruct (read_z_inits _ d1 []) as [zs|]; simpl; [|done].
  unfold _compute_observation. simpl. rewrite Hi1, Hi2.
  destruct (sensor d1 !! "block1_pos"); simpl; [|done].
  destruct (image_obs self); [by destruct (render d1)|done].
Qed.

End ResetClaims.

(** * Concrete runs in the scripted world *)

Module Runs.
Import Scripted.

(** C1, the claim as stated fails.  Sparse mode, two blocks; the
    gripper closed on the previous step and is still closed (finger
    joint at 0.5) while block 2 sits exactly on block 1: the raw
    detector returns true, and [info.succeed] is false. *)
Lemma succeed_differs_from_raw_in_sparse_mode :
  ¬ (∀ res self',
       @step world (stacked_scene 0.5) (grasped "sparse") = Some (res, self') →
       info res !! "succeed" = _is_success self').
Proof.
  intros Hclaim.
  destruct (step_spec (H := world) (stacked_scene 0.5) (grasped "sparse"))
    as (res & current & raw & p1 & Hstep & Hc & Hraw & _ & Hrew & Hinfo & _).
  { names_by_cases. }
  { intros Hdense. vm_compute in Hdense. discriminate. }
  specialize (Hclaim _ _ Hstep).
  rewrite _is_success_prev, Hinfo, Hraw in Hclaim.
  assert (Hsparse : String.eqb (reward_type (grasped "sparse")) "sparse" = true)
    by by_vm.
  assert (Hdense : String.eqb (reward_type (grasped "sparse")) "dense" = false)
    by by_vm.
  assert (Hprev : _prev_gripper_closed (grasped "sparse") = Some true) by by_vm.
  assert (Hc' : _is_gripper_closed (moved (stacked_scene 0.5) (grasped "sparse"))
                = Some true) by by_vm.
  assert (Hraw' : _is_success (moved (stacked_scene 0.5) (grasped "sparse"))
                  = Some true) by by_vm.
  unfold moved in Hc', Hraw'.
  rewrite Hc' in Hc. injection Hc as <-.
  rewrite Hraw' in Hraw. injection Hraw as <-.
  rewrite Hdense, Hprev in Hrew. rewrite Hsparse, Hrew in Hclaim.
  discriminate Hclaim.
Qed.

Lemma step_succeed_by_mode_witness :
  ∃ res self',
    @step world (stacked_scene 0) (grasped "sparse") = Some (res, self')
    ∧ info res !! "succeed" = Some true.
Proof.
  destruct (step_succeed_by_mode (H := world) (stacked_scene 0) (grasped "sparse"))
    as (res & self' & released & raw & Hstep & Hrel & Hraw & _ & Hsparse & _).
  - names_by_cases.
  - intros Hdense. vm_compute in Hdense. discriminate.
  - exists res, self'. split; [exact Hstep|].
    destruct Hsparse as [_ ->]; [by_vm|].
    apply just_released_inv in Hrel as (current & Hc & _ & ->).
    assert (Hprev : _prev_gripper_closed (moved (stacked_scene 0) (grasped "sparse"))
                    = Some true) by by_vm.
    assert (Hc' : _is_gripper_closed (moved (stacked_scene 0) (grasped "sparse"))
                  = Some false) by by_vm.
    assert (Hraw' : _is_success (moved (stacked_scene 0) (grasped "sparse"))
                    = Some true) by by_vm.
    unfold moved in Hprev, Hc', Hraw'.
    rewrite Hc' in Hc. injection Hc as <-.
    rewrite Hraw' in Hraw. injection Hraw as <-.
    rewrite Hprev. reflexivity.
Defined.

Lemma step_terminated_witness :
  ∃ res self',
    @step world (scene (Vec3 0.56 0 0.02) (Vec3 0.5 0.1 0.02) (Vec3 0.3 0 0.02) 0)
          (started "sparse") = Some (res, self')
    ∧ terminated res = true ∧ truncated res = false.
Proof.
  destruct (step_terminated (H := world)
              (scene (Vec3 0.56 0 0.02) (Vec3 0.5 0.1 0.02) (Vec3 0.3 0 0.02) 0)
              (started "sparse"))
    as (res & self' & raw & p1 & Hstep & Hraw & Hp1 & Hterm & _ & Htrunc & _).
  - names_by_cases.
  - intros Hdense. vm_compute in Hdense. discriminate.
  - exists res, self'. split; [exact Hstep|]. split; [|exact Htrunc].
    rewrite Hterm.
    assert (Hp1' : sensor (_data (moved
              (scene (Vec3 0.56 0 0.02) (Vec3 0.5 0.1 0.02) (Vec3 0.3 0 0.02) 0)
              (started "sparse"))) !! (block_name 0 +:+ "_pos")
                   = Some (Vec3 0.56 0 0.02))
      by by_vm.
    unfold moved in Hp1'. rewrite Hp1' in Hp1. injection Hp1 as <-.
    assert (Hout : exceeded_bounds (Vec3 0.56 0 0.02) = true) by by_vm.
    rewrite Hout. apply orb_true_r.
Defined.

Lemma step_tracker_once_witness :
  ∃ res self',
    @step world (stacked_scene 0) (grasped "dense") = Some (res, self')
    ∧ _prev_gripper_closed self' = Some false
    ∧ _z_inits self' = _z_inits (grasped "dense").
Proof.
  destruct (step_tracker_once (H := world) (stacked_scene 0) (grasped "dense"))
    as (res & self' & current & raw & Hstep & Hc & _ & _ & _ & _ & Hprev & Hz & _).
  - names_by_cases.
  - intros _. eexists. split; [by_vm|]. vm_compute. lia.
  - exists res, self'. split; [exact Hstep|]. split; [|exact Hz].
    rewrite Hprev.
    assert (Hc' : _is_gripper_closed (moved (stacked_scene 0) (grasped "dense"))
                  = Some false) by by_vm.
    unfold moved in Hc'. by rewrite <- Hc, Hc'.
Defined.

Lemma just_released_counts_transitions_witness :
  ∃ rs,
    @release_trace world (started "sparse")
      [apart_scene 0.5; stacked_scene 0.5; stacked_scene 0;
       apart_scene 0.5; apart_scene 0] = Some rs
    ∧ count_true rs = 2%nat.
Proof.
  destruct (@reset world (Some 0%Z) (fresh "sparse" false 2) g0)
    as [[[out self] g']|] eqn:Hreset;
    [|apply (f_equal returned) in Hreset; vm_compute in Hreset; discriminate].
  assert (Hself : started "sparse" = self)
    by (unfold started; by rewrite Hreset).
  destruct (just_released_counts_transitions (H := world)
              (Some 0%Z) (fresh "sparse" false 2) self g0 g' out
              [apart_scene 0.5; stacked_scene 0.5; stacked_scene 0;
               apart_scene 0.5; apart_scene 0]
              [true; true; false; true; false] Hreset)
    as (rs & Hrs & _ & Hcount & _ & _).
  - rewrite <- Hself. by_vm.
  - exists rs. rewrite Hself. by split.
Defined.

Lemma is_success_iff_valid_pair_witness :
  valid_stack h (Vec3 0.5 0 0.06) (Vec3 0.5 0 0.02)
  ∧ _is_success (moved (stacked_scene 0.5) (started "sparse")) = Some true
  ∧ ¬ valid_stack h (Vec3 0.5 0.2 0.06) (Vec3 0.5 0 0.02)
  ∧ _is_success (moved (offset_scene 0.5) (started "sparse")) = Some false.
Proof.
  assert (Hvalid : valid_stack h (Vec3 0.5 0 0.06) (Vec3 0.5 0 0.02)).
  { unfold valid_stack, xy_dist. cbn [vx vy vz]. split.
    - replace ((Q2R 0.5 - Q2R 0.5) * (Q2R 0.5 - Q2R 0.5)
               + (Q2R 0 - Q2R 0) * (Q2R 0 - Q2R 0))%R with 0%R by ring.
      rewrite sqrt_0. rewrite <- RMicromega.Q2R_0. apply Qlt_Rlt. reflexivity.
    - split; [reflexivity|]. vm_compute. reflexivity. }
  destruct (is_success_iff_valid_pair (H := world)
              (moved (stacked_scene 0.5) (started "sparse")))
    as (stacked & ps & Hrun & Hps & _ & Hiff & _).
  { names_by_cases. }
  destruct (is_success_iff_valid_pair (H := world)
              (moved (offset_scene 0.5) (started "sparse")))
    as (stacked' & ps' & Hrun' & Hps' & _ & Hiff' & _).
  { names_by_cases. }
  vm_compute in Hps. injection Hps as <-.
  vm_compute in Hps'. injection Hps' as <-.
  assert (Hfalse : stacked' = false).
  { vm_compute in Hrun'. injection Hrun' as <-. reflexivity. }
  split; [exact Hvalid|]. split.
  - rewrite Hrun. f_equal. apply (proj2 Hiff).
    exists 1%nat, 0%nat, (Vec3 0.5 0 0.06), (Vec3 0.5 0 0.02).
    split; [discriminate|]. split; [reflexivity|]. split; [reflexivity|exact Hvalid].
  - split; [|rewrite Hrun'; f_equal; exact Hfalse].
    intros Hv. enough (stacked' = true) by congruence. apply (proj2 Hiff').
    exists 1%nat, 0%nat, (Vec3 0.5 0.2 0.06), (Vec3 0.5 0 0.02).
    split; [discriminate|]. split; [reflexivity|]. split; [reflexivity|exact Hv].
Defined.

Lemma perfect_stack_is_success_witness :
  _is_success (moved (stacked_scene 0.5) (started "sparse")) = Some true.
Proof.
  destruct (perfect_stack_is_success (H := world)
              (moved (stacked_scene 0.5) (started "sparse")) 1 0
              (Vec3 0.5 0 0.06) (Vec3 0.5 0 0.02))
    as (Hup & _ & Hsucc).
  - names_by_cases.
  - vm_compute. lia.
  - vm_compute. lia.
  - discriminate.
  - by_vm.
  - by_vm.
  - by_vm.
  - by_vm.
  - by_vm.
  - apply Hsucc. left. apply Hup. by_vm.
Defined.

Lemma lift_term_single_object_witness :
  ∃ l, @lift_loop world (started "dense") 0
         (<[1%nat := with_height 0.07 (Vec3 0.5 0.1 0.02)]>
            [Vec3 0.5 0 0.02; Vec3 0.5 0.1 0.02]) 0.0 = Some l
       ∧ l == 1.
Proof.
  destruct (lift_term_single_object (H := world) (started "dense") [0.02; 0.02]
              [Vec3 0.5 0 0.02; Vec3 0.5 0.1 0.02] 1 (Vec3 0.5 0.1 0.02) 0.02)
    as (Hval & _ & Htop).
  - by_vm.
  - by_vm.
  - reflexivity.
  - reflexivity.
  - reflexivity.
  - intros i q zi Hne Hq Hzi.
    destruct i as [|[|i]]; [|done|by rewrite lookup_cons_ne_0 in Hq].
    injection Hq as <-. injection Hzi as <-. reflexivity.
  - destruct (Hval 0.07) as (l & Hl & _). exists l. split; [exact Hl|].
    apply (Htop 0.07); [vm_compute; discriminate|exact Hl].
Defined.

Lemma reset_fixed_placement_two_blocks_witness :
  (∃ y rest, joint (_data (started "sparse")) !! "block1"
             = Some ([0.5; y; _block_z (fresh "sparse" false 2)] ++ rest)
             ∧ y == 0.0)
  ∧ joint (_data (started "sparse")) !! "block2"
    = joint (@reset_robot world (@mj_resetData world
               (_data (fresh "sparse" false 2)))) !! "block2".
Proof.
  destruct (@reset world (Some 0%Z) (fresh "sparse" false 2) g0)
    as [[[out self] g']|] eqn:Hreset;
    [|apply (f_equal returned) in Hreset; vm_compute in Hreset; discriminate].
  assert (Hself : started "sparse" = self)
    by (unfold started; by rewrite Hreset).
  rewrite Hself.
  apply (reset_fixed_placement_two_blocks (H := world) (Some 0%Z)
           (fresh "sparse" false 2) self g0 g' out);
    [reflexivity|reflexivity|exact Hreset].
Defined.

Lemma reset_baseline_second_entry_witness :
  ∃ zs p1,
    _z_inits (started "dense") = Some zs
    ∧ length zs = num_blocks (fresh "dense" false 2)
    ∧ sensor (_data (started "dense")) !! "block1_pos" = Some p1
    ∧ zs !! 0%nat = Some (vz p1)
    ∧ zs !! 1%nat = Some (vz p1)
    ∧ @block_name 1 +:+ "_pos" = "block2_pos".
Proof.
  destruct (@reset world (Some 0%Z) (fresh "dense" false 2) g0)
    as [[[out self] g']|] eqn:Hreset;
    [|apply (f_equal returned) in Hreset; vm_compute in Hreset; discriminate].
  assert (Hself : started "dense" = self)
    by (unfold started; by rewrite Hreset).
  rewrite Hself.
  apply (reset_baseline_second_entry (H := world) (Some 0%Z)
           (fresh "dense" false 2) self g0 g' out);
    [vm_compute; lia|exact Hreset].
Defined.

(** C3, seen in the reward.  Dense mode, two blocks; block 2 rests on a
    3 cm pad.  On the first step after [reset], with nothing moved
    (the snapshot is the one [reset] left), the reward is
    [0.3 * 0.75]: block 2 is measured against the baseline of block 1. *)
Lemma dense_reward_of_unmoved_blocks :
  ∃ res self',
    @step world (_data (started "dense")) (started "dense") = Some (res, self')
    ∧ rew res == 0.225
    ∧ _z_inits (started "dense") = Some [0.02; 0.02]
    ∧ sensor (_data (started "dense")) !! "block2_pos" = Some (Vec3 0.4 (-0.1) 0.05).
Proof.
  destruct (step_spec (H := world) (_data (started "dense")) (started "dense"))
    as (res & current & raw & p1 & Hstep & _ & Hraw & _ & Hrew & _).
  { names_by_cases. }
  { intros _. eexists. split; [by_vm|]. vm_compute. lia. }
  eexists _, _. split; [exact Hstep|]. split; [|split; by_vm].
  assert (Hdense : String.eqb (reward_type (started "dense")) "dense" = true) by by_vm.
  rewrite Hdense in Hrew. destruct Hrew as (ps & lift & Hps & Hlift & ->).
  assert (Hraw' : _is_success (moved (_data (started "dense")) (started "dense"))
                  = Some false) by by_vm.
  unfold moved in Hraw'. rewrite Hraw' in Hraw. injection Hraw as <-.
  assert (Hps' : mapM (λ i, sensor (@apply_action world (_data (started "dense"))
                                      (_data (started "dense")))
                              !! (@block_name i +:+ "_pos"))
                      (seq 0 (num_blocks (started "dense")))
                 = Some [Vec3 0.4 0.1 0.02; Vec3 0.4 (-0.1) 0.05]) by by_vm.
  rewrite Hps' in Hps. injection Hps as <-.
  vm_compute in Hlift. injection Hlift as <-.
  assert (Hterm : ∀ r, stack_term r false = 0.0) by (by intros []).
  rewrite Hterm. by_vm.
Qed.

(** C4 (the code on two resets with one seed).  Two fresh, identically
    configured instances with randomized placement are reset with seed
    0 one after the other: the first block is placed at different
    planar positions. *)
Theorem same_seed_different_placement :
  ∃ x1 y1 x2 y2,
    placement first_reset = Some (x1, y1)
    ∧ placement second_reset = Some (x2, y2)
    ∧ ¬ (x1 == x2 ∧ y1 == y2).
Proof.
  eexists _, _, _, _. split; [by_vm|]. split; [by_vm|].
  intros [Hx _]. vm_compute in Hx. discriminate.
Qed.

End Runs.

(** * Further properties of the environment *)

(** ** Rewards *)

Section RewardFacts.
Context `{Collaborators}.

Lemma lift_loop_range (self : Env) (i : nat) (ps : list vec3) (acc r : Q) :
  0 <= acc <= 1 → lift_loop self i ps acc = Some r → acc <= r <= 1.
Proof.
  revert i acc. induction ps as [|pos rest IH]; intros i acc Hacc; simpl.
  - intros [= <-]. qlra.
  - destruct (_z_inits self) as [zs|]; simpl; [|done].
    destruct (zs !! i) as [zi|]; simpl; [|done].
    intros Hrun. apply IH in Hrun.
    + pose proof (py_max_ge_l acc
        (np_clip ((vz pos - zi) / (_block_z self * 2)) 0.0 1.0)). qlra.
    + split.
      * pose proof (py_max_ge_l acc
          (np_clip ((vz pos - zi) / (_block_z self * 2)) 0.0 1.0)). qlra.
      * apply py_max_le; [qlra|apply np_clip_range].
Qed.

Lemma py_max_cases (a b : Q) : py_max a b = a ∨ py_max a b = b.
Proof. unfold py_max. destruct (Qltb a b); auto. Qed.

(** The loop returns a value that dominates the start value and every
    clipped lift it meets, and that is one of them. *)
Lemma lift_loop_max (self : Env) (zs : list Q) (i : nat) (ps : list vec3) (acc r : Q) :
  _z_inits self = Some zs →
  lift_loop self i ps acc = Some r →
  acc <= r
  ∧ (∀ k p z0, ps !! k = Some p → zs !! (i + k)%nat = Some z0 →
               clipped_lift (_block_z self) z0 (vz p) <= r)
  ∧ (r = acc ∨ ∃ k p z0, ps !! k = Some p ∧ zs !! (i + k)%nat = Some z0
                          ∧ r = clipped_lift (_block_z self) z0 (vz p)).
Proof.
  intros Hzs. revert i acc. induction ps as [|pos rest IH]; intros i acc; simpl.
  - intros [= <-]. split_and!; [qlra| |by left].
    intros k p z0 Hk. by rewrite lookup_nil in Hk.
  - rewrite Hzs. simpl. destruct (zs !! i) as [zi|] eqn:Hzi; simpl; [|done].
    intros Hrun. fold (clipped_lift (_block_z self) zi (vz pos)) in Hrun.
    destruct (IH _ _ Hrun) as (Hge & Hall & Hone).
    pose proof (py_max_ge_l acc (clipped_lift (_block_z self) zi (vz pos))) as Hl.
    pose proof (py_max_ge_r acc (clipped_lift (_block_z self) zi (vz pos))) as Hr.
    split_and!.
    + qlra.
    + intros [|k] p z0 Hp Hz0; simpl in Hp.
      * injection Hp as <-. rewrite Nat.add_0_r, Hzi in Hz0. injection Hz0 as <-. qlra.
      * apply (Hall k); [done|]. by rewrite Nat.add_succ_comm.
    + destruct Hone as [->|(k & p & z0 & Hp & Hz0 & ->)].
      * destruct (py_max_cases acc (clipped_lift (_block_z self) zi (vz pos)))
          as [->| ->]; [by left|].
        right. exists 0%nat, pos, zi. by rewrite Nat.add_0_r.
      * right. exists (S k), p, z0. by rewrite <- Nat.add_succ_comm.
Qed.

Lemma lift_loop_mono (self : Env) (i : nat) (ps ps' : list vec3) (acc acc' r r' : Q) :
  0 < _block_z self →
  Forall2 (λ p p', vz p <= vz p') ps ps' →
  acc <= acc' →
  lift_loop self i ps acc = Some r →
  lift_loop self i ps' acc' = Some r' →
  r <= r'.
Proof.
  intros Hh Hall. revert i acc acc'.
  induction Hall as [|p p' ps ps' Hp Hall IH]; intros i acc acc' Hacc; simpl.
  - by intros [= <-] [= <-].
  - destruct (_z_inits self) as [zs|]; simpl; [|done].
    destruct (zs !! i) as [zi|]; simpl; [|done].
    apply IH. apply py_max_mono; [done|].
    apply np_clip_mono, Qdiv_le_mono; qlra.
Qed.

(** X7.  The lift term of the dense reward, for any heights: it lies in
    [0, 1], it is at least the clipped lift of every object, it is 0 or
    the clipped lift of one of the objects, and (for a positive
    half-height) it does not decrease when no object is lowered. *)
Theorem lift_term_is_max_clipped_lift (self : Env) (zs : list Q)
    (positions : list vec3) (r : Q) :
  _z_inits self = Some zs →
  lift_loop self 0 positions 0.0 = Some r →
  0 <= r <= 1
  ∧ (∀ i p z0, positions !! i = Some p → zs !! i = Some z0 →
               clipped_lift (_block_z self) z0 (vz p) <= r)
  ∧ (r = 0.0 ∨ ∃ i p z0, positions !! i = Some p ∧ zs !! i = Some z0
                          ∧ r = clipped_lift (_block_z self) z0 (vz p))
  ∧ (0 < _block_z self →
     ∀ positions' r',
       Forall2 (λ p p', vz p <= vz p') positions positions' →
       lift_loop self 0 positions' 0.0 = Some r' → r <= r').
Proof.
  intros Hzs Hrun.
  destruct (lift_loop_max self zs 0 positions 0.0 r Hzs Hrun) as (_ & Hall & Hone).
  assert (Hrange : 0.0 <= r <= 1)
    by (apply (lift_loop_range self 0 positions 0.0 r); [qlra|done]).
  split_and!; try done; try qlra.
  intros Hh ps' r' Hps Hrun'.
    apply (lift_loop_mono self 0 positions ps' 0.0 0.0 r r'); done || qlra.
Qed.

(** X6.  The dense reward of a step lies in [0, 1.7]; it is at least 1.4
    exactly on a step where the tracker reports a release and the
    detector a stack, at most 0.65 on every other step, and at most 0.3
    when nothing is stacked. *)
Theorem dense_reward_range (action : Action) (self : Env) :
  reward_type self = "dense" →
  names_present (num_blocks self) (apply_action action (_data self)) →
  baseline_ready self →
  ∃ res self' current raw,
    step action self = Some (res, self')
    ∧ _is_gripper_closed (set_data (apply_action action (_data self)) self)
      = Some current
    ∧ _is_success (set_data (apply_action action (_data self)) self) = Some raw
    ∧ let released := match _prev_gripper_closed self with
                      | Some prev => prev && negb current
                      | None => false
                      end in
      0 <= rew res <= 1.7
      ∧ (released && raw = true → 1.4 <= rew res)
      ∧ (released && raw = false → rew res <= 0.65)
      ∧ (raw = false → rew res <= 0.3).
Proof.
  intros Hmode Hnames Hbase.
  destruct (step_spec action self Hnames (λ _, Hbase))
    as (res & current & raw & p1 & Hstep & Hc & Hraw & _ & Hrew & _).
  rewrite Hmode in Hrew. simpl in Hrew.
  destruct Hrew as (ps & lift & _ & Hlift & Hrew).
  apply lift_loop_range in Hlift; [|qlra].
  eexists res, _, current, raw. split_and!; try done.
  intros released. fold released in Hrew. rewrite Hrew.
  unfold stack_term. destruct released, raw; simpl; split_and!; intros; try done; qlra.
Qed.

End RewardFacts.

(** ** When a step returns, and the first steps *)

Section StepFacts.
Context `{Collaborators}.

Lemma lift_loop_Some_inv (self : Env) (i : nat) (ps : list vec3) (acc r : Q) :
  lift_loop self i ps acc = Some r →
  ps ≠ [] →
  ∃ zs, _z_inits self = Some zs ∧ (i + length ps ≤ length zs)%nat.
Proof.
  revert i acc. induction ps as [|pos rest IH]; intros i acc; [done|]. simpl.
  destruct (_z_inits self) as [zs|] eqn:Hzs; simpl; [|done].
  destruct (zs !! i) as [zi|] eqn:Hzi; simpl; [|done].
  intros Hrun _. exists zs. split; [done|].
  apply lookup_lt_Some in Hzi.
  destruct rest as [|pos' rest']; [simpl; lia|].
  destruct (IH _ _ Hrun) as (zs' & Hzs' & Hlen); [done|].
  injection Hzs' as <-. simpl in *. lia.
Qed.

Lemma _is_success_Some_names (self : Env) (b : bool) :
  _is_success self = Some b →
  ∀ i, (i < num_blocks self)%nat →
    is_Some (sensor (_data self) !! (block_name i +:+ "_pos"))
    ∧ is_Some (joint (_data self) !! block_name i).
Proof.
  unfold _is_success.
  destruct (mapM (λ i, sensor (_data self) !! (block_name i +:+ "_pos")) _)
    as [ps|] eqn:Hps; simpl; [|done].
  destruct (mapM (λ i, joint (_data self) !! block_name i) _)
    as [qs|] eqn:Hqs; simpl; [|done].
  intros _ i Hi.
  destruct (mapM_range _ _ _ Hps) as [Hlen Hlook].
  destruct (mapM_range _ _ _ Hqs) as [Hlen' Hlook'].
  rewrite <- Hlook, <- Hlook' by done.
  split; apply lookup_lt_is_Some; lia.
Qed.

Lemma _is_gripper_closed_Some (self : Env) (c : bool) :
  _is_gripper_closed self = Some c →
  ∃ q qs, joint (_data self) !! "left_driver_joint" = Some (q :: qs)
          ∧ c = Qltb 0.1 q.
Proof.
  unfold _is_gripper_closed.
  destruct (joint (_data self) !! "left_driver_joint") as [[|q qs]|]; simpl; try done.
  intros [= <-]. by exists q, qs.
Qed.

(** [step] returns also when the baseline is not needed: in a mode other
    than dense, or with no blocks. *)
Lemma step_total_gen (action : Action) (self : Env) :
  names_present (num_blocks self) (apply_action action (_data self)) →
  (reward_type self = "dense" → num_blocks self = 0%nat ∨ baseline_ready self) →
  is_Some (step action self).
Proof.
  intros Hnames Hbase.
  destruct (decide (reward_type self = "dense")) as [Hmode|Hmode];
    [|apply step_total; [done|by intros ?]].
  destruct (Hbase Hmode) as [Hzero|Hready]; [|apply step_total; [done|by intros ?]].
  assert (Hfacts : ∀ s, s = set_data (apply_action action (_data self)) self →
    names_present (num_blocks s) (_data s)
    ∧ reward_type s = "dense" ∧ num_blocks s = 0%nat) by (by intros s ->).
  unfold step.
  remember (set_data (apply_action action (_data self)) self) as self0 eqn:E.
  destruct (Hfacts self0 eq_refl) as (Hn0 & Hm0 & Hz0). clear E Hfacts.
  destruct (_is_success_spec self0 Hn0) as (raw & ps & Hraw & Hps & Hlen & _).
  destruct Hn0 as ([p1 Hp1] & _ & (q & qs & Hq)).
  assert (Hobs : is_Some (_compute_observation self0)).
  { unfold _compute_observation. rewrite Hp1. simpl.
    destruct (image_obs self0); [by destruct (render _)|done]. }
  destruct Hobs as [o Ho]. rewrite Ho. simpl.
  assert (Hc : _is_gripper_closed self0 = Some (Qltb 0.1 q)).
  { unfold _is_gripper_closed. by rewrite Hq. }
  pose proof (just_released_total self0 _ Hc) as Hrel.
  destruct (tracker_keeps _ _ _ Hrel) as (Hrt & _ & _ & _ & Hd & Hsucc).
  rewrite Hraw in Hsucc.
  rewrite Hz0 in Hlen. apply nil_length_inv in Hlen. subst ps.
  assert (Hrew : ∃ r, _compute_reward self0
                      = Some (r, set_prev_gripper_closed (Some (Qltb 0.1 q)) self0)).
  { unfold _compute_reward. rewrite Hm0, Hps. simpl. rewrite Hrel. simpl.
    rewrite Hsucc.
    destruct (match _prev_gripper_closed self0 with
              | Some prev => prev && negb (Qltb 0.1 q) | None => false end);
      simpl; destruct raw; by eexists. }
  destruct Hrew as [r Hrew]. rewrite Hrew. simpl.
  rewrite Hsucc. simpl. rewrite Hp1. simpl. done.
Qed.

(** A step that returns found everything it reads. *)
Lemma step_Some_needs (action : Action) (self : Env) :
  is_Some (step action self) →
  names_present (num_blocks self) (apply_action action (_data self))
  ∧ (reward_type self = "dense" →
     num_blocks self = 0%nat ∨ baseline_ready self).
Proof.
  intros [[res self'] Hstep].
  destruct (step_inv _ _ _ _ Hstep)
    as (released & raw & p1 & o & _ & _ & Hrel & Hraw & Hp1 & Hrew & _).
  destruct (just_released_inv _ _ _ Hrel) as (c & Hc & _ & _).
  destruct (_is_gripper_closed_Some _ _ Hc) as (q & qs & Hq & _).
  split.
  - split; [by eexists|]. split; [|by exists q, qs].
    exact (_is_success_Some_names _ _ Hraw).
  - intros Hmode. rewrite Hmode in Hrew. simpl in Hrew.
    destruct Hrew as (ps & lift & Hps & Hlift & _).
    destruct (mapM_range _ _ _ Hps) as [Hlen _].
    destruct ps as [|p ps]; [left; by rewrite <- Hlen|right].
    destruct (lift_loop_Some_inv _ _ _ _ _ Hlift) as (zs & Hzs & Hcover); [done|].
    exists zs. split; [done|]. rewrite <- Hlen. simpl in *. lia.
Qed.

(** X1.  When [step] returns rather than raises: exactly when the data
    after the action has the sensor of the reference object, the finger
    joint with a coordinate, and sensor and joint of each of the N
    objects, and, in dense mode with at least one block, the baseline
    [_z_inits] exists and has an entry per block. *)
Theorem step_returns_iff (action : Action) (self : Env) :
  is_Some (step action self)
  ↔ names_present (num_blocks self) (apply_action action (_data self))
    ∧ (reward_type self = "dense" →
       num_blocks self = 0%nat ∨ baseline_ready self).
Proof.
  split; [apply step_Some_needs|].
  intros [Hnames Hbase]. by apply step_total_gen.
Qed.

(** X2.  A step on an instance that was never reset.  In dense mode with
    at least one block it raises ([_z_inits] does not exist yet).  In
    any other mode it returns on well-formed data: the tracker takes the
    lazily initialised branch, so the reward is 0.0, the tracker now
    holds the current gripper state, and [_z_inits] still does not
    exist. *)
Theorem step_before_reset (action : Action) (reward_type : string)
    (random image_obs : bool) (n : nat) (h : Q) (data : MjData) :
  let self := __init__ reward_type random n image_obs h data in
  (reward_type = "dense" → (0 < n)%nat → step action self = None)
  ∧ (reward_type ≠ "dense" →
     names_present n (apply_action action data) →
     ∃ res self' current,
       step action self = Some (res, self')
       ∧ _is_gripper_closed (set_data (apply_action action data) self) = Some current
       ∧ rew res = 0.0
       ∧ _prev_gripper_closed self' = Some current
       ∧ _z_inits self' = None).
Proof.
  intros self. split.
  - intros Hmode Hn.
    destruct (step action self) as [r|] eqn:Hstep; [|done].
    assert (Hsome : is_Some (step action self)) by (by rewrite Hstep).
    apply step_Some_needs in Hsome as [_ Hbase].
    destruct (Hbase Hmode) as [Hzero|(zs & Hzs & _)]; [simpl in Hzero; lia|done].
  - intros Hmode Hnames.
    destruct (step_spec action self Hnames)
      as (res & current & raw & p1 & Hstep & Hc & _ & _ & Hrew & _);
      [by intros ?|].
    apply String.eqb_neq in Hmode. simpl in Hrew. rewrite Hmode in Hrew.
    eexists res, _, current. split_and!; try done.
Qed.

(** X3.  The first step after [reset] never sees a release: in sparse
    mode its reward is 0.0, [info.succeed] is false and the episode is
    terminated by the bounds check alone; in dense mode its reward is at
    most 0.65. *)
Theorem first_step_after_reset (seed : option Z) (fresh self : Env) (g g' : Rng)
    (out : Observation * gmap string bool) (action : Action) :
  reset seed fresh g = Some (out, self, g') →
  names_present (num_blocks self) (apply_action action (_data self)) →
  ∃ res self' block1_pos,
    step action self = Some (res, self')
    ∧ sensor (apply_action action (_data self)) !! "block1_pos" = Some block1_pos
    ∧ (reward_type self = "sparse" →
       rew res = 0.0
       ∧ info res !! "succeed" = Some false
       ∧ terminated res = exceeded_bounds block1_pos)
    ∧ (reward_type self = "dense" → 0 <= rew res <= 0.65).
Proof.
  intros Hreset Hnames.
  destruct (reset_inv _ _ _ _ _ _ Hreset)
    as (zs & _ & _ & Hzs & Hlen & _ & Hprev & _ & Hn & _).
  assert (Hbase : baseline_ready self) by (exists zs; split; [done|lia]).
  destruct (step_spec action self Hnames (λ _, Hbase))
    as (res & current & raw & p1 & Hstep & _ & _ & Hp1 & Hrew & Hinfo & Hterm & _).
  rewrite Hprev in Hrew. simpl in Hrew.
  eexists res, _, p1. split_and!; try done.
  - intros Hmode. rewrite Hmode in Hrew, Hinfo, Hterm. simpl in *.
    unfold sparse_reward in Hrew. simpl in Hrew.
    rewrite Hrew in Hinfo, Hterm. by rewrite Hrew, Hinfo, Hterm.
  - intros Hmode. rewrite Hmode in Hrew. simpl in Hrew.
    destruct Hrew as (ps & lift & _ & Hlift & ->).
    apply lift_loop_range in Hlift; [|qlra].
    unfold stack_term. destruct raw; simpl; qlra.
Qed.

(** X4.  A release is never rewarded on two consecutive steps: in sparse
    mode, after a step with reward 1.0 the next step has reward 0.0; in
    dense mode, after a step with reward 1.4 or more the next step has
    reward at most 0.65. *)
Theorem no_release_reward_twice_in_a_row (a1 a2 : Action) (self s1 s2 : Env)
    (r1 r2 : StepResult) :
  step a1 self = Some (r1, s1) →
  step a2 s1 = Some (r2, s2) →
  (reward_type self = "sparse" → Qeq_bool (rew r1) 1.0 = true → rew r2 = 0.0)
  ∧ (reward_type self = "dense" → 1.4 <= rew r1 → rew r2 <= 0.65).
Proof.
  intros Hstep1 Hstep2.
  destruct (step_inv _ _ _ _ Hstep1)
    as (rel1 & raw1 & _ & _ & _ & _ & Hrel1 & _ & _ & Hrew1 & _).
  destruct (step_inv _ _ _ _ Hstep2)
    as (rel2 & raw2 & _ & _ & _ & _ & Hrel2 & _ & _ & Hrew2 & _).
  destruct (tracker_keeps _ _ _ Hrel1) as (Hrt & _).
  simpl in Hrt.
  destruct (just_released_inv _ _ _ Hrel1) as (c1 & _ & Hs1 & Hr1).
  destruct (just_released_inv _ _ _ Hrel2) as (c2 & _ & _ & Hr2).
  simpl in Hr1, Hr2.
  assert (Hprev1 : _prev_gripper_closed s1 = Some c1) by (by rewrite Hs1).
  rewrite Hprev1 in Hr2. rewrite Hrt in Hrew2.
  assert (Hnext : rel1 = true → rel2 = false).
  { intros ->. rewrite Hr2.
    destruct (_prev_gripper_closed self) as [[]|], c1; done. }
  split.
  - intros Hmode Hone. rewrite Hmode in Hrew1, Hrew2. simpl in *.
    rewrite Hrew1, sparse_reward_is_one in Hone.
    apply andb_true_iff in Hone as [Hone _].
    by rewrite Hrew2, (Hnext Hone).
  - intros Hmode Hbig. rewrite Hmode in Hrew1, Hrew2. simpl in *.
    destruct Hrew1 as (ps1 & lift1 & _ & Hlift1 & Hrew1).
    destruct Hrew2 as (ps2 & lift2 & _ & Hlift2 & ->).
    apply lift_loop_range in Hlift1; [|qlra].
    apply lift_loop_range in Hlift2; [|qlra].
    assert (Hone : rel1 = true).
    { rewrite Hrew1 in Hbig. unfold stack_term in Hbig.
      destruct rel1, raw1; simpl in Hbig; try done; exfalso; qlra. }
    rewrite (Hnext Hone). unfold stack_term. destruct raw2; simpl; qlra.
Qed.

(** X12.  The observation of a step is assembled from the data after the
    action, every number in it cast to float32.  In the state layout it
    carries the float32 cast of the robot state and, of all the blocks,
    only the float32 cast of the reading of sensor [block1_pos]; the
    bounds check of the same step tests that reading itself, not its
    cast.  In the pixel layout it carries the two rendered views and the
    float32 cast of the robot state. *)
Theorem step_observation (action : Action) (self self' : Env) (res : StepResult) :
  step action self = Some (res, self') →
  ∃ block1_pos raw,
    sensor (apply_action action (_data self)) !! "block1_pos" = Some block1_pos
    ∧ _is_success (set_data (apply_action action (_data self)) self) = Some raw
    ∧ terminated res
      = (if String.eqb (reward_type self) "sparse"
         then Qeq_bool (rew res) 1.0 else raw)
        || exceeded_bounds block1_pos
    ∧ obs res
      = if image_obs self
        then PixelObs (fst (render (apply_action action (_data self))))
                      (snd (render (apply_action action (_data self))))
                      (astype_float32
                         <$> get_robot_state (apply_action action (_data self)))
        else StateObs (astype_float32
                         <$> get_robot_state (apply_action action (_data self)))
                      [astype_float32 (vx block1_pos);
                       astype_float32 (vy block1_pos);
                       astype_float32 (vz block1_pos)].
Proof.
  intros Hstep.
  destruct (step_inv _ _ _ _ Hstep)
    as (released & raw & p1 & o & Ho & _ & _ & Hraw & Hp1 & _ & Hres).
  exists p1, raw. simpl in Hp1. split_and!; try done.
  - by rewrite Hres at 1.
  - rewrite Hres at 1. simpl. unfold _compute_observation in Ho. simpl in Ho.
    rewrite Hp1 in Ho. simpl in Ho.
    destruct (image_obs self); [|by injection Ho].
    destruct (render _). by injection Ho.
Qed.

End StepFacts.

(** ** What reset needs and what it leaves *)

Section ResetFacts.
Context `{Collaborators}.

Lemma set_qpos3_Some (name : string) (x y z : Q) (d : MjData) :
  is_Some (set_qpos3 name x y z d)
  ↔ ∃ qpos, joint d !! name = Some qpos ∧ (3 ≤ length qpos)%nat.
Proof.
  unfold set_qpos3. destruct (joint d !! name) as [qpos|]; simpl.
  - case_decide; split.
    + intros _. by exists qpos.
    + by eexists.
    + by intros [??].
    + intros (q & [= <-] & Hq). lia.
  - split; [by intros [??]|by intros (q & ? & _)].
Qed.

(** A write keeps, for every joint name, whether the joint exists with at
    least three coordinates. *)
Lemma set_qpos3_keeps (name name' : string) (x y z : Q) (d d' : MjData) :
  set_qpos3 name x y z d = Some d' →
  (∃ qpos, joint d' !! name' = Some qpos ∧ (3 ≤ length qpos)%nat)
  ↔ (∃ qpos, joint d !! name' = Some qpos ∧ (3 ≤ length qpos)%nat).
Proof.
  intros Hset.
  assert (Hok : is_Some (set_qpos3 name x y z d)) by (by rewrite Hset).
  apply set_qpos3_Some in Hok as (q0 & Hq0 & Hlen0).
  apply set_qpos3_inv in Hset as (q & Hq & ->).
  destruct (decide (name = name')) as [<-|Hne].
  - rewrite lookup_insert_eq. split; [by eexists|].
    intros _. eexists. split; [done|]. simpl. lia.
  - by rewrite lookup_insert_ne.
Qed.

Lemma place_blocks_Some (random : bool) (h : Q) (idx : list nat) (d : MjData) (g : Rng) :
  is_Some (place_blocks random h idx d g)
  ↔ ∀ i, i ∈ idx →
      ∃ qpos, joint d !! reset_block_name i = Some qpos ∧ (3 ≤ length qpos)%nat.
Proof.
  revert d g. induction idx as [|i idx IH]; intros d g; simpl.
  - split; [|by eexists]. intros _ i Hi. by apply elem_of_nil in Hi.
  - destruct (if random then _ else _) as [block_xy g1].
    destruct (set_qpos3 (reset_block_name i) block_xy.1 block_xy.2 h d)
      as [d1|] eqn:Hset; simpl.
    + rewrite IH. split.
      * intros Hall j Hj. apply elem_of_cons in Hj as [->|Hj].
        -- eapply (proj1 (set_qpos3_Some _ _ _ _ _)). by rewrite Hset.
        -- apply (set_qpos3_keeps _ _ _ _ _ _ _ Hset). by apply Hall.
      * intros Hall j Hj. apply (set_qpos3_keeps _ _ _ _ _ _ _ Hset).
        apply Hall. by right.
    + split; [by intros [??]|]. intros Hall.
      assert (Hok : is_Some (set_qpos3 (reset_block_name i) block_xy.1 block_xy.2 h d)).
      { apply (proj2 (set_qpos3_Some _ _ _ _ _)), Hall. by left. }
      rewrite Hset in Hok. by destruct Hok.
Qed.

Lemma read_z_inits_Some (idx : list nat) (d : MjData) (acc : list Q) :
  is_Some (read_z_inits idx d acc)
  ↔ ∀ i, i ∈ idx → is_Some (sensor d !! (reset_block_name i +:+ "_pos")).
Proof.
  revert acc. induction idx as [|i idx IH]; intros acc; simpl.
  - split; [|by eexists]. intros _ i Hi. by apply elem_of_nil in Hi.
  - destruct (sensor d !! (reset_block_name i +:+ "_pos")) as [p|] eqn:Hp; simpl.
    + rewrite IH. split.
      * intros Hall j Hj. apply elem_of_cons in Hj as [->|Hj]; [by rewrite Hp|by apply Hall].
      * intros Hall j Hj. apply Hall. by right.
    + split; [by intros [??]|]. intros Hall.
      destruct (Hall i) as [p Hp']; [by left|]. by rewrite Hp in Hp'.
Qed.

Lemma after_draws_S (n : nat) (g : Rng) :
  after_draws (S n) g
  = after_draws n (snd (uniform (fst _SAMPLING_BOUNDS) (snd _SAMPLING_BOUNDS) g)).
Proof.
  unfold after_draws.
  exact (Nat.iter_succ_r n
           (λ g, snd (uniform (fst _SAMPLING_BOUNDS) (snd _SAMPLING_BOUNDS) g)) g).
Qed.

Lemma place_blocks_rng (random : bool) (h : Q) (idx : list nat)
    (d d' : MjData) (g g' : Rng) :
  place_blocks random h idx d g = Some (d', g') →
  g' = if random then after_draws (length idx) g else g.
Proof.
  revert d g. induction idx as [|i idx IH]; intros d g; cbn [place_blocks length].
  - intros [= _ <-]. by destruct random.
  - destruct random.
    + destruct (uniform _ _ g) as [block_xy g1] eqn:Hdraw.
      destruct (set_qpos3 _ _ _ _ d) as [d1|]; simpl; [|done].
      intros Hrest. rewrite (IH _ _ Hrest).
      change (after_draws (length idx) g1 = after_draws (S (length idx)) g).
      by rewrite after_draws_S, Hdraw.
    + destruct (set_qpos3 _ _ _ _ d) as [d1|]; simpl; [|done].
      intros Hrest. by rewrite (IH _ _ Hrest).
Qed.

(** Names the loop does not use are left alone. *)
Lemma place_blocks_other (random : bool) (h : Q) (idx : list nat)
    (d d' : MjData) (g g' : Rng) (name : string) :
  place_blocks random h idx d g = Some (d', g') →
  (∀ i, i ∈ idx → reset_block_name i ≠ name) →
  joint d' !! name = joint d !! name.
Proof.
  revert d g. induction idx as [|i idx IH]; intros d g; simpl.
  - by intros [= <- _].
  - destruct (if random then _ else _) as [block_xy g1].
    destruct (set_qpos3 _ _ _ _ d) as [d1|] eqn:Hset; simpl; [|done].
    intros Hrest Hne. rewrite (IH _ _ Hrest) by (intros j Hj; apply Hne; by right).
    apply set_qpos3_inv in Hset as (q & _ & ->).
    rewrite lookup_insert_ne; [done|]. apply Hne. by left.
Qed.

(** A write changes the first three coordinates only. *)
Lemma set_qpos3_tail (name name' : string) (x y z : Q) (d d' : MjData) :
  set_qpos3 name x y z d = Some d' →
  drop 3 <$> joint d' !! name' = drop 3 <$> joint d !! name'.
Proof.
  intros Hset. apply set_qpos3_inv in Hset as (q & Hq & ->).
  destruct (decide (name = name')) as [<-|Hne].
  - by rewrite lookup_insert_eq, Hq.
  - by rewrite lookup_insert_ne.
Qed.

Lemma place_blocks_tail (random : bool) (h : Q) (idx : list nat)
    (d d' : MjData) (g g' : Rng) (name : string) :
  place_blocks random h idx d g = Some (d', g') →
  drop 3 <$> joint d' !! name = drop 3 <$> joint d !! name.
Proof.
  revert d g. induction idx as [|i idx IH]; intros d g; simpl.
  - by intros [= <- _].
  - destruct (if random then _ else _) as [block_xy g1].
    destruct (set_qpos3 _ _ _ _ d) as [d1|] eqn:Hset; simpl; [|done].
    intros Hrest. rewrite (IH _ _ Hrest). by eapply set_qpos3_tail.
Qed.

(** What a joint holds after the loop, from its first three coordinates:
    the rest is as it was before the loop. *)
Lemma place_blocks_kept (random : bool) (h : Q) (idx : list nat)
    (d d' : MjData) (g g' : Rng) (name : string) (x y z : Q) (rest : list Q) :
  place_blocks random h idx d g = Some (d', g') →
  joint d' !! name = Some ([x; y; z] ++ rest) →
  name ∈ reset_block_name <$> idx →
  ∃ qpos, joint d !! name = Some qpos ∧ (3 ≤ length qpos)%nat
          ∧ joint d' !! name = Some ([x; y; z] ++ drop 3 qpos).
Proof.
  intros Hplace Hlast Hin.
  apply list_elem_of_fmap in Hin as (i & -> & Hi).
  assert (Hok : is_Some (place_blocks random h idx d g)) by (by rewrite Hplace).
  destruct (proj1 (place_blocks_Some _ _ _ _ _) Hok i Hi) as (qpos & Hq & Hlen).
  pose proof (place_blocks_tail _ _ _ _ _ _ _ (reset_block_name i) Hplace) as Htail.
  rewrite Hlast, Hq in Htail. simpl in Htail. injection Htail as Htail.
  change (drop 0 rest) with rest in Htail. subst rest.
  by exists qpos.
Qed.

(** The last write to a name is the one that stays. *)
Lemma place_blocks_last_write (random : bool) (h : Q) (before after : list nat)
    (i : nat) (d d' : MjData) (g g' : Rng) :
  place_blocks random h (before ++ i :: after) d g = Some (d', g') →
  (∀ j, j ∈ after → reset_block_name j ≠ reset_block_name i) →
  ∃ rest,
    joint d' !! reset_block_name i
    = Some ([fst (if random
                  then fst (uniform (fst _SAMPLING_BOUNDS) (snd _SAMPLING_BOUNDS)
                              (after_draws (length before) g))
                  else (0.5, -0.1 + inject_Z (Z.of_nat i) * 0.1));
             snd (if random
                  then fst (uniform (fst _SAMPLING_BOUNDS) (snd _SAMPLING_BOUNDS)
                              (after_draws (length before) g))
                  else (0.5, -0.1 + inject_Z (Z.of_nat i) * 0.1));
             h] ++ rest).
Proof.
  revert d g. induction before as [|a before IH]; intros d g;
    cbn [app place_blocks length].
  - destruct (if random then _ else _) as [block_xy g1] eqn:Hxy.
    destruct (set_qpos3 _ _ _ _ d) as [d1|] eqn:Hset;
      cbn [mbind option_bind]; [|done].
    intros Hrest Hne. rewrite (place_blocks_other _ _ _ _ _ _ _ _ Hrest Hne).
    apply set_qpos3_inv in Hset as (q & _ & ->). rewrite lookup_insert_eq.
    exists (drop 3 q). destruct random; [|by injection Hxy as <- _].
    change (after_draws 0 g) with g. by rewrite Hxy.
  - destruct (if random then _ else _) as [block_xy g1] eqn:Hxy.
    destruct (set_qpos3 _ _ _ _ d) as [d1|] eqn:Hset;
      cbn [mbind option_bind]; [|done].
    intros Hrest Hne. destruct (IH _ _ Hrest Hne) as (rest & ->).
    exists rest. destruct random; [|done].
    by rewrite after_draws_S, Hxy.
Qed.

Lemma reset_block_name_pos (i : nat) :
  (0 < i)%nat → reset_block_name i = "block" +:+ pretty i.
Proof. intros Hi. unfold reset_block_name. by rewrite decide_True. Qed.

Lemma reset_block_name_inj (i j : nat) :
  (0 < i)%nat → (0 < j)%nat → reset_block_name i = reset_block_name j → i = j.
Proof.
  intros Hi Hj. rewrite !reset_block_name_pos by done.
  intros Heq. apply (inj (String.app "block")) in Heq. by apply (inj pretty) in Heq.
Qed.

Lemma reset_config (seed : option Z) (self : Env) :
  num_blocks (super_reset seed self) = num_blocks self
  ∧ _block_z (super_reset seed self) = _block_z self
  ∧ _random_block_position (super_reset seed self) = _random_block_position self
  ∧ _data (super_reset seed self) = _data self
  ∧ image_obs (super_reset seed self) = image_obs self.
Proof. by destruct seed. Qed.

(** X9.  When [reset], called without a seed or with a seed that is not
    negative, returns rather than raises: exactly when the data
    left by the physics reset has, for every index below N, the joint
    that the loops name ([block1] for index 0, [block{i}] for index
    [i > 0]) with at least three coordinates and the position sensor of
    that name, and the sensor [block1_pos].  The joint and the sensor of
    the last object, [block{N}], are not needed. *)
Theorem reset_returns_iff (seed : option Z) (self : Env) (g : Rng) :
  seed_accepted seed →
  is_Some (reset seed self g)
  ↔ reset_ready (num_blocks self) (reset_robot (mj_resetData (_data self))).
Proof.
  intros _. unfold reset, reset_ready.
  destruct (reset_config seed self) as (-> & -> & -> & -> & Himg).
  set (d0 := reset_robot (mj_resetData (_data self))).
  destruct (place_blocks _ _ _ d0 g) as [[d1 g1]|] eqn:Hplace; simpl.
  - pose proof (place_blocks_sensor _ _ _ _ _ _ _ Hplace) as Hsens.
    assert (Hjoints : is_Some (place_blocks (_random_block_position self)
              (_block_z self) (seq 0 (num_blocks self)) d0 g)) by (by rewrite Hplace).
    pose proof (proj1 (place_blocks_Some _ _ _ _ _) Hjoints) as Hj.
    rewrite (proj1 (reset_config seed self)).
    destruct (read_z_inits _ d1 []) as [zs|] eqn:Hzs; simpl.
    + assert (Hsensors : is_Some (read_z_inits (seq 0 (num_blocks self)) d1 []))
        by (by rewrite Hzs).
      pose proof (proj1 (read_z_inits_Some _ _ _) Hsensors) as Hs.
      unfold _compute_observation. simpl. rewrite Himg, Hsens.
      destruct (sensor d0 !! "block1_pos") as [p1|] eqn:Hp1; simpl.
      * split; [intros _|intros _; destruct (image_obs self);
                           [by destruct (render d1)|done]].
        split; [|by eexists]. intros i Hi.
        assert (Hin : i ∈ seq 0 (num_blocks self)) by (apply elem_of_seq; lia).
        split; [by apply Hj|]. rewrite <- Hsens. by apply Hs.
      * split; [by intros [??]|]. by intros [_ [??]].
    + split; [by intros [??]|]. intros [Hall _].
      assert (Hsensors : is_Some (read_z_inits (seq 0 (num_blocks self)) d1 [])).
      { apply (proj2 (read_z_inits_Some _ _ _)). intros i Hi. apply elem_of_seq in Hi.
        rewrite Hsens. apply Hall. lia. }
      rewrite Hzs in Hsensors. by destruct Hsensors.
  - split; [by intros [??]|]. intros [Hall _].
    assert (Hjoints : is_Some (place_blocks (_random_block_position self)
              (_block_z self) (seq 0 (num_blocks self)) d0 g)).
    { apply (proj2 (place_blocks_Some _ _ _ _ _)). intros i Hi. apply elem_of_seq in Hi.
      apply Hall. lia. }
    rewrite Hplace in Hjoints. by destruct Hjoints.
Qed.

(** X10.  [reset] and the module-level generator: without randomized
    placement the generator is not touched; with it, the generator is
    advanced by exactly N draws, one per loop index. *)
Theorem reset_generator_draws (seed : option Z) (self self' : Env) (g g' : Rng)
    (out : Observation * gmap string bool) :
  reset seed self g = Some (out, self', g') →
  g' = if _random_block_position self then after_draws (num_blocks self) g else g.
Proof.
  intros Hreset.
  destruct (reset_inv _ _ _ _ _ _ Hreset) as (zs & Hplace & _).
  apply place_blocks_rng in Hplace. by rewrite length_seq in Hplace.
Qed.

(** X8.  Where [reset] leaves the joints, for any number of blocks.  For
    [1 ≤ k < N] joint [block{k}] holds the position computed at loop
    index [k] (so [block1] holds that of index 1, the one of index 0
    being overwritten) at height [h], followed by the coordinates the
    joint had after the physics reset from the fourth on; with one block,
    [block1] holds the position of index 0 in the same way; every
    joint whose name the loop does not produce is as the physics reset
    left it, and for [N ≥ 2] this includes [block{N}], the joint of the
    last object. *)
Theorem reset_joint_positions (seed : option Z) (self self' : Env) (g g' : Rng)
    (out : Observation * gmap string bool) :
  reset seed self g = Some (out, self', g') →
  let d0 := reset_robot (mj_resetData (_data self)) in
  let xy := placement_of (_random_block_position self) g in
  (∀ k, (1 ≤ k < num_blocks self)%nat →
     ∃ qpos, joint d0 !! ("block" +:+ pretty k) = Some qpos
             ∧ (3 ≤ length qpos)%nat
             ∧ joint (_data self') !! ("block" +:+ pretty k)
               = Some ([fst (xy k); snd (xy k); _block_z self] ++ drop 3 qpos))
  ∧ (num_blocks self = 1%nat →
     ∃ qpos, joint d0 !! "block1" = Some qpos
             ∧ (3 ≤ length qpos)%nat
             ∧ joint (_data self') !! "block1"
               = Some ([fst (xy 0%nat); snd (xy 0%nat); _block_z self]
                       ++ drop 3 qpos))
  ∧ (∀ name, (∀ i, (i < num_blocks self)%nat → reset_block_name i ≠ name) →
     joint (_data self') !! name = joint d0 !! name)
  ∧ ((2 ≤ num_blocks self)%nat →
     joint (_data self') !! block_name (num_blocks self - 1)
     = joint d0 !! block_name (num_blocks self - 1)).
Proof.
  intros Hreset d0 xy.
  destruct (reset_inv _ _ _ _ _ _ Hreset) as (zs & Hplace & _).
  fold d0 in Hplace.
  assert (Hother : ∀ name,
    (∀ i, (i < num_blocks self)%nat → reset_block_name i ≠ name) →
    joint (_data self') !! name = joint d0 !! name).
  { intros name Hne. apply (place_blocks_other _ _ _ _ _ _ _ _ Hplace).
    intros i Hi. apply elem_of_seq in Hi. apply Hne. lia. }
  split_and!; try done.
  - intros k [Hk1 Hk2].
    assert (Hsplit : seq 0 (num_blocks self)
                     = seq 0 k ++ k :: seq (S k) (num_blocks self - S k)).
    { replace (num_blocks self) with (k + S (num_blocks self - S k))%nat at 1 by lia.
      by rewrite seq_app. }
    pose proof Hplace as Hsplit'. rewrite Hsplit in Hsplit'.
    destruct (place_blocks_last_write _ _ _ _ _ _ _ _ _ Hsplit') as (rest & Hlast).
    + intros j Hj Heq. apply elem_of_seq in Hj.
      apply reset_block_name_inj in Heq; lia.
    + rewrite length_seq in Hlast.
      destruct (place_blocks_kept _ _ _ _ _ _ _ _ _ _ _ _ Hplace Hlast)
        as (qpos & Hq & Hlen & Hnew).
      { apply list_elem_of_fmap. exists k. split; [done|]. apply elem_of_seq. lia. }
      rewrite reset_block_name_pos in Hq, Hnew by lia.
      exists qpos. split; [done|]. split; [done|]. rewrite Hnew.
      unfold xy, placement_of. by destruct (_random_block_position self).
  - intros Hone. pose proof Hplace as Hsplit'. rewrite Hone in Hsplit'.
    destruct (place_blocks_last_write _ _ [] [] 0 _ _ _ _ Hsplit') as (rest & Hlast).
    + intros j Hj. by apply elem_of_nil in Hj.
    + destruct (place_blocks_kept _ _ _ _ _ _ _ _ _ _ _ _ Hplace Hlast)
        as (qpos & Hq & Hlen & Hnew).
      { apply list_elem_of_fmap. exists 0%nat. split; [done|].
        apply elem_of_seq. lia. }
      rewrite reset_block_name_0 in Hq, Hnew.
      exists qpos. split; [done|]. split; [done|]. rewrite Hnew.
      unfold xy, placement_of. by destruct (_random_block_position self).
  - intros Hn. apply Hother. intros i Hi Heq.
    unfold block_name in Heq.
    replace (num_blocks self - 1 + 1)%nat with (num_blocks self) in Heq by lia.
    destruct i as [|i].
    + rewrite reset_block_name_0 in Heq.
      change "block1" with ("block" +:+ pretty 1%nat) in Heq.
      apply (inj (String.app "block")) in Heq. apply (inj pretty) in Heq. lia.
    + rewrite reset_block_name_pos in Heq by lia.
      apply (inj (String.app "block")) in Heq. apply (inj pretty) in Heq. lia.
Qed.

(** X11.  What [reset] reads is what the sensors held before the blocks
    were placed: the placement writes joint coordinates only, so the
    sensor readings after [reset] are those left by [reset_robot], each
    entry of [_z_inits] is the height such a reading has, and in the
    state layout the returned observation carries the float32 cast of
    such a reading of [block1_pos], next to the float32 cast of the robot
    state; the returned info is empty. *)
Theorem reset_reads_sensors_before_placement (seed : option Z) (self self' : Env)
    (g g' : Rng) (out : Observation * gmap string bool) :
  reset seed self g = Some (out, self', g') →
  let d0 := reset_robot (mj_resetData (_data self)) in
  sensor (_data self') = sensor d0
  ∧ (∃ zs, _z_inits self' = Some zs
           ∧ length zs = num_blocks self
           ∧ ∀ i, (i < num_blocks self)%nat →
               zs !! i = vz <$> sensor d0 !! (reset_block_name i +:+ "_pos"))
  ∧ (image_obs self = false →
     ∃ p, sensor d0 !! "block1_pos" = Some p
          ∧ fst out
            = StateObs (astype_float32 <$> get_robot_state (_data self'))
                       [astype_float32 (vx p); astype_float32 (vy p);
                        astype_float32 (vz p)])
  ∧ snd out = ∅.
Proof.
  intros Hreset d0.
  destruct (reset_inv _ _ _ _ _ _ Hreset)
    as (zs & Hplace & Hsens & Hzs & Hlen & Hentries & _ & _ & _ & _ & Hinfo).
  split_and!; try done.
  - exists zs. split_and!; try done. intros i Hi.
    destruct (Hentries i Hi) as (p & Hp & ->). rewrite Hsens in Hp.
    unfold d0. by rewrite Hp.
  - intros Himg. unfold reset in Hreset.
    destruct (reset_config seed self) as (Hn & Hz & Hr & Hd & Hi).
    rewrite Hn, Hz, Hr, Hd in Hreset. fold d0 in Hreset.
    destruct (place_blocks _ _ _ d0 g) as [[d1 g1]|]; simpl in Hreset; [|done].
    rewrite Hn in Hreset.
    destruct (read_z_inits _ d1 []) as [zs'|]; simpl in Hreset; [|done].
    unfold _compute_observation in Hreset. simpl in Hreset.
    rewrite Hi, Himg in Hreset.
    destruct (sensor d1 !! "block1_pos") as [p|] eqn:Hp; simpl in Hreset; [|done].
    injection Hreset as <- <- <-. simpl in *.
    exists p. split; [|done]. unfold d0. by rewrite <- Hsens.
Qed.

End ResetFacts.

(** ** Runs of steps *)

Section RunFacts.
Context `{Collaborators}.

(** X13.  The tracker on an instance that was never reset (the attribute
    does not exist yet): the first call stores the current gripper state
    and returns false, and from then on the calls count the
    closed-to-open transitions of the observed sequence, as after a
    [reset]. *)
Theorem release_trace_without_reset (self : Env) (snapshots : list MjData)
    (states : list bool) :
  _prev_gripper_closed self = None →
  gripper_states self snapshots = Some states →
  ∃ rs, release_trace self snapshots = Some rs
        ∧ length rs = length snapshots
        ∧ count_true rs = closed_to_open states
        ∧ ∀ r, rs !! 0%nat = Some r → r = false.
Proof.
  intros Hprev Hstates. destruct snapshots as [|d rest].
  - injection Hstates as <-. exists []. split_and!; try done.
  - unfold gripper_states in Hstates. rewrite mapM_Some in Hstates.
    inversion Hstates as [|? current ? tail Hc Htail]; subst.
    destruct (release_trace_from
                (set_prev_gripper_closed (Some current) (set_data d self))
                rest current tail eq_refl) as (rs & Hrs & Hcount & Hlen & _).
    { unfold gripper_states. rewrite mapM_Some.
      eapply Forall2_impl; [exact Htail|]. by intros d' c' <-. }
    exists (false :: rs). split_and!.
    + simpl. rewrite (just_released_total _ current Hc). simpl.
      rewrite Hprev. simpl. by rewrite Hrs.
    + simpl. by rewrite Hlen.
    + simpl. unfold count_true in *. by rewrite filter_cons, decide_False.
    + by intros r [= <-].
Qed.

Lemma gripper_states_env (self self' : Env) (snapshots : list MjData) :
  gripper_states self snapshots = gripper_states self' snapshots.
Proof. reflexivity. Qed.

(** After a successful step: where the instance stands. *)
Lemma step_state (action : Action) (self self' : Env) (res : StepResult) :
  step action self = Some (res, self') →
  ∃ current raw,
    _is_gripper_closed (set_data (apply_action action (_data self)) self) = Some current
    ∧ self' = set_prev_gripper_closed (Some current)
                (set_data (apply_action action (_data self)) self)
    ∧ (String.eqb (reward_type self) "dense" = false →
       rew res = sparse_reward (match _prev_gripper_closed self with
                                | Some prev => prev && negb current
                                | None => false
                                end) raw)
    ∧ truncated res = false.
Proof.
  intros Hstep.
  destruct (step_inv _ _ _ _ Hstep)
    as (released & raw & p1 & o & _ & _ & Hrel & _ & _ & Hrew & Hres).
  destruct (just_released_inv _ _ _ Hrel) as (current & Hc & -> & ->).
  exists current, raw. split_and!; try done.
  - intros Hmode. by rewrite Hmode in Hrew.
  - by rewrite Hres.
Qed.

(** X15.  After [reset], the loop of steps runs through: if every
    snapshot the actions leave has the names a step reads, then all the
    steps return, one result per action, none of them truncated, and at
    the end the baseline and the configuration are those of the start
    and the physics data is the last snapshot. *)
Theorem run_steps_after_reset (seed : option Z) (fresh self : Env) (g g' : Rng)
    (out : Observation * gmap string bool) (actions : list Action) :
  reset seed fresh g = Some (out, self, g') →
  Forall (names_present (num_blocks self)) (run_data actions (_data self)) →
  ∃ results self',
    run_steps actions self = Some (results, self')
    ∧ length results = length actions
    ∧ Forall (λ res, truncated res = false) results
    ∧ _z_inits self' = _z_inits self
    ∧ reward_type self' = reward_type self
    ∧ num_blocks self' = num_blocks self
    ∧ _block_z self' = _block_z self
    ∧ _data self' = default (_data self) (last (run_data actions (_data self))).
Proof.
  intros Hreset.
  destruct (reset_inv _ _ _ _ _ _ Hreset)
    as (zs & _ & _ & Hzs & Hlen & _ & _ & _ & Hn & _).
  assert (Hbase : baseline_ready self) by (exists zs; split; [done|lia]).
  clear Hreset Hzs Hlen Hn. revert self Hbase.
  induction actions as [|a rest IH]; intros self Hbase Hall.
  - exists [], self. by split_and!.
  - cbn [run_data] in Hall. apply Forall_cons in Hall as [Ha Hrest].
    destruct (step_spec a self Ha (λ _, Hbase))
      as (res & current & raw & p1 & Hstep & _ & _ & _ & _ & _ & _ & Htrunc).
    set (s1 := set_prev_gripper_closed (Some current)
                 (set_data (apply_action a (_data self)) self)) in *.
    destruct (IH s1) as (results & self' & Hrun & Hlen & Htr & Hz & Hrt & Hn & Hh & Hd);
      [done|done|].
    exists (res :: results), self'. split_and!; try done.
    + cbn [run_steps]. rewrite Hstep. simpl. by rewrite Hrun.
    + simpl. by rewrite Hlen.
    + by constructor.
    + rewrite Hd. cbn [run_data]. simpl.
      destruct (run_data rest (apply_action a (_data self))) eqn:Hl; [done|].
      rewrite last_cons_cons. destruct (last (m :: l)) eqn:Hlast; [done|].
      by apply last_None in Hlast.
Qed.

Lemma transitions_from_closed (prev : bool) (states : list bool) :
  Forall (λ c, c = true) states → transitions_from prev states = 0%nat.
Proof.
  intros Hall. revert prev. induction Hall as [|c states -> _ IH]; intros prev; [done|].
  simpl. rewrite IH. by destruct prev.
Qed.

(** X5.  Sparse rewards over a run of steps: every reward is 0.0 or 1.0,
    the number of steps rewarded with 1.0 is at most the number of
    closed-to-open transitions of the gripper over the run (counted from
    the state the tracker held at the start), so a run in which the
    gripper is closed at every step earns 0.0 throughout, whatever the
    blocks do. *)
Theorem sparse_rewards_at_most_releases (actions : list Action) (self self' : Env)
    (results : list StepResult) :
  reward_type self = "sparse" →
  run_steps actions self = Some (results, self') →
  ∃ states,
    gripper_states self (run_data actions (_data self)) = Some states
    ∧ Forall (λ res, rew res = 0.0 ∨ rew res = 1.0) results
    ∧ (count_ones results
       ≤ transitions_from (default false (_prev_gripper_closed self)) states)%nat
    ∧ (Forall (λ c, c = true) states → Forall (λ res, rew res = 0.0) results).
Proof.
  intros Hmode Hrun.
  cut (∃ states,
    gripper_states self (run_data actions (_data self)) = Some states
    ∧ Forall (λ res, rew res = 0.0 ∨ rew res = 1.0) results
    ∧ (count_ones results
       ≤ transitions_from (default false (_prev_gripper_closed self)) states)%nat
    ∧ (transitions_from (default false (_prev_gripper_closed self)) states = 0%nat →
       Forall (λ res, rew res = 0.0) results)).
  { intros (states & Hs & H01 & Hcount & Hzero). exists states.
    split_and!; try done. intros Hclosed. apply Hzero.
    by apply transitions_from_closed. }
  revert self self' results Hmode Hrun.
  induction actions as [|a rest IH]; intros self self' results Hmode Hrun.
  - injection Hrun as <- <-. exists []. split_and!; by try constructor.
  - cbn [run_steps] in Hrun.
    destruct (step a self) as [[res s1]|] eqn:Hstep; simpl in Hrun; [|done].
    destruct (run_steps rest s1) as [[results' s2]|] eqn:Hrest; simpl in Hrun; [|done].
    injection Hrun as <- <-.
    destruct (step_state _ _ _ _ Hstep) as (current & raw & Hc & Hs1 & Hrew & _).
    specialize (Hrew ltac:(by rewrite Hmode)).
    destruct (IH s1 s2 results') as (states & Hstates & H01 & Hcount & Hzero);
      [by rewrite Hs1|done|].
    assert (Hd1 : _data s1 = apply_action a (_data self)) by (by rewrite Hs1).
    assert (Hp1 : _prev_gripper_closed s1 = Some current) by (by rewrite Hs1).
    rewrite Hd1, Hp1 in *. simpl in Hcount, Hzero.
    exists (current :: states). split_and!.
    + cbn [run_data]. unfold gripper_states in *. cbn [mapM]. rewrite Hc. simpl.
      assert (Hst : mapM (λ d, _is_gripper_closed (set_data d self))
                         (run_data rest (apply_action a (_data self)))
                    = Some states) by exact Hstates.
      by rewrite Hst.
    + constructor; [|done]. rewrite Hrew. unfold sparse_reward.
      destruct (_ && raw); auto.
    + unfold count_ones in *. rewrite filter_cons. cbn [transitions_from].
      rewrite Hrew, sparse_reward_is_one.
      destruct (_prev_gripper_closed self) as [[]|], current, raw; simpl in *; lia.
    + cbn [transitions_from]. intros Hsum.
      constructor; [|apply Hzero; lia].
      rewrite Hrew.
      destruct (_prev_gripper_closed self) as [[]|], current, raw;
        simpl in *; done || lia.
Qed.

End RunFacts.

(** ** The detector and the frame of reference *)

Section DetectorFacts.
Context `{Collaborators}.

Lemma Qltb_proper (a a' b b' : Q) : a == a' → b == b' → Qltb a b = Qltb a' b'.
Proof.
  intros Ha Hb. apply eq_true_iff_eq. rewrite !Qltb_lt. by rewrite Ha, Hb.
Qed.

Lemma stack_test_translate (h : Q) (t upper lower : vec3) :
  stack_test h (translate t upper) (translate t lower) = stack_test h upper lower.
Proof.
  unfold stack_test, xy_dist_ltb, xy_sq, translate. cbn [vx vy vz].
  f_equal; [f_equal|]; apply Qltb_proper; try reflexivity;
    [ring|ring|apply Qabs_wd; ring].
Qed.

Lemma stack_inner_translate (t : vec3) (ps : list vec3) (h : Q) (i : nat)
    (jvals : list nat) :
  stack_inner (translate t <$> ps) h i jvals = stack_inner ps h i jvals.
Proof.
  induction jvals as [|j jvals IH]; [done|]. simpl.
  rewrite IH, !list_lookup_fmap. case_decide; [done|].
  destruct (ps !! i) as [u|]; simpl; [|done].
  destruct (ps !! j) as [l|]; simpl; [|done].
  by rewrite stack_test_translate.
Qed.

Lemma stack_outer_translate (t : vec3) (ps : list vec3) (h : Q)
    (ivals jvals : list nat) :
  stack_outer (translate t <$> ps) h ivals jvals = stack_outer ps h ivals jvals.
Proof.
  induction ivals as [|i ivals IH]; [done|]. simpl.
  by rewrite IH, stack_inner_translate.
Qed.

Lemma mapM_fmap_inner {A B C} (f : B → C) (g : A → option B) (l : list A) :
  mapM (λ x, f <$> g x) l = fmap f <$> mapM g l.
Proof.
  induction l as [|x l IH]; [done|]. cbn [mapM]. rewrite IH.
  destruct (g x); simpl; [|done]. by destruct (mapM g l).
Qed.

(** X14.  The detector does not depend on the frame of reference: moving
    every sensor reading by the same offset leaves its result (a raise
    included) as it was. *)
Theorem is_success_translation_invariant (t : vec3) (self : Env) :
  _is_success (set_data (shift_sensors t (_data self)) self) = _is_success self.
Proof.
  unfold _is_success. simpl.
  rewrite (mapM_ext _ (λ i, translate t <$> sensor (_data self)
                                !! (block_name i +:+ "_pos")))
    by (intros i; apply lookup_fmap).
  rewrite mapM_fmap_inner.
  destruct (mapM (λ i, sensor (_data self) !! (block_name i +:+ "_pos")) _)
    as [ps|]; simpl; [|done].
  destruct (mapM (λ i, joint (_data self) !! block_name i) _); simpl; [|done].
  apply stack_outer_translate.
Qed.

End DetectorFacts.

(** * Further concrete runs in the scripted world *)

Module MoreRuns.
Import Scripted.

(** A call that returned, by evaluation. *)
Ltac returned_by_vm Hnone :=
  exfalso; apply (f_equal returned) in Hnone; vm_compute in Hnone; discriminate.

Lemma lift_term_is_max_clipped_lift_witness :
  ∃ r, @lift_loop world (started "dense") 0
         [Vec3 0.5 0 0.02; Vec3 0.5 0.1 0.05] 0.0 = Some r
       ∧ 0 <= r <= 1.
Proof.
  destruct (@lift_loop world (started "dense") 0
              [Vec3 0.5 0 0.02; Vec3 0.5 0.1 0.05] 0.0) as [r|] eqn:Hrun;
    [|returned_by_vm Hrun].
  exists r. split; [reflexivity|].
  apply (lift_term_is_max_clipped_lift (H := world) (started "dense") [0.02; 0.02]
           [Vec3 0.5 0 0.02; Vec3 0.5 0.1 0.05] r); [by_vm|exact Hrun].
Defined.

Lemma dense_reward_range_witness :
  ∃ res self',
    @step world (stacked_scene 0) (grasped "dense") = Some (res, self')
    ∧ 0 <= rew res <= 1.7.
Proof.
  pose proof (dense_reward_range (H := world) (stacked_scene 0) (grasped "dense"))
    as Hw. cbv zeta in Hw.
  destruct Hw as (res & self' & current & raw & Hstep & _ & _ & Hrange & _).
  - by_vm.
  - names_by_cases.
  - eexists. split; [by_vm|]. vm_compute. lia.
  - exists res, self'. split; [exact Hstep|exact Hrange].
Defined.

Lemma step_before_reset_witness :
  @step world (apart_scene 0) (fresh "dense" false 2) = None
  ∧ ∃ res self',
      @step world (apart_scene 0) (fresh "sparse" false 2) = Some (res, self')
      ∧ rew res = 0.0.
Proof.
  split.
  - apply (step_before_reset (H := world) (apart_scene 0) "dense" false false 2 h
             canonical); [reflexivity|lia].
  - destruct (step_before_reset (H := world) (apart_scene 0) "sparse" false false 2 h
                canonical) as [_ Hsparse].
    destruct Hsparse as (res & self' & current & Hstep & _ & Hrew & _).
    + discriminate.
    + names_by_cases.
    + exists res, self'. split; [exact Hstep|exact Hrew].
Defined.

Lemma first_step_after_reset_witness :
  ∃ res self',
    @step world (stacked_scene 0) (started "sparse") = Some (res, self')
    ∧ rew res = 0.0.
Proof.
  destruct (@reset world (Some 0%Z) (fresh "sparse" false 2) g0)
    as [[[out self] g']|] eqn:Hreset; [|returned_by_vm Hreset].
  assert (Hself : started "sparse" = self) by (unfold started; by rewrite Hreset).
  destruct (first_step_after_reset (H := world) (Some 0%Z) (fresh "sparse" false 2)
              self g0 g' out (stacked_scene 0) Hreset)
    as (res & self' & p1 & Hstep & _ & Hsparse & _).
  - rewrite <- Hself. names_by_cases.
  - rewrite Hself. exists res, self'. split; [exact Hstep|].
    apply Hsparse. rewrite <- Hself. by_vm.
Defined.

Lemma no_release_reward_twice_in_a_row_witness :
  ∃ r1 s1 r2 s2,
    @step world (stacked_scene 0) (grasped "sparse") = Some (r1, s1)
    ∧ @step world (stacked_scene 0) s1 = Some (r2, s2)
    ∧ (Qeq_bool (rew r1) 1.0 = true → rew r2 = 0.0).
Proof.
  destruct (step_spec (H := world) (stacked_scene 0) (grasped "sparse"))
    as (r1 & c1 & raw1 & p1 & Hstep1 & _).
  { names_by_cases. }
  { intros Hdense. vm_compute in Hdense. discriminate. }
  destruct (step_spec (H := world) (stacked_scene 0)
              (set_prev_gripper_closed (Some c1)
                 (moved (stacked_scene 0) (grasped "sparse"))))
    as (r2 & c2 & raw2 & p2 & Hstep2 & _).
  { names_by_cases. }
  { intros Hdense. vm_compute in Hdense. discriminate. }
  unfold moved in Hstep2.
  eexists r1, _, r2, _. split; [exact Hstep1|]. split; [exact Hstep2|].
  apply (no_release_reward_twice_in_a_row (H := world) _ _ _ _ _ _ _ Hstep1 Hstep2).
  by_vm.
Defined.

Lemma sparse_rewards_at_most_releases_witness :
  ∃ results self',
    @run_steps world [apart_scene 0.5; stacked_scene 0.5; stacked_scene 0]
               (started "sparse") = Some (results, self')
    ∧ Forall (λ res, rew res = 0.0 ∨ rew res = 1.0) results.
Proof.
  destruct (@run_steps world [apart_scene 0.5; stacked_scene 0.5; stacked_scene 0]
              (started "sparse")) as [[results self']|] eqn:Hrun;
    [|returned_by_vm Hrun].
  exists results, self'. split; [reflexivity|].
  destruct (sparse_rewards_at_most_releases (H := world)
              [apart_scene 0.5; stacked_scene 0.5; stacked_scene 0]
              (started "sparse") self' results) as (states & _ & H01 & _);
    [by_vm|exact Hrun|].
  exact H01.
Defined.

Lemma step_observation_witness :
  ∃ res self',
    @step world (apart_scene 0.1) (started "sparse") = Some (res, self')
    ∧ sensor (apart_scene 0.1) !! "block1_pos" = Some (Vec3 0.5 0 0.02)
    ∧ obs res
      = @StateObs world [F32 (13421773 # 134217728)]
                        [F32 (1 # 2); F32 0; F32 (5368709 # 268435456)].
Proof.
  destruct (@step world (apart_scene 0.1) (started "sparse"))
    as [[res self']|] eqn:Hstep; [|returned_by_vm Hstep].
  destruct (step_observation (H := world) _ _ _ _ Hstep)
    as (p & raw & Hp & _ & _ & Hobs).
  exists res, self'. split; [reflexivity|]. split; [reflexivity|]. rewrite Hobs.
  assert (Himg : image_obs (started "sparse") = false) by by_vm.
  rewrite Himg. vm_compute in Hp. injection Hp as <-.
  f_equal; by_vm.
Defined.

Lemma release_trace_without_reset_witness :
  ∃ rs,
    @release_trace world (fresh "sparse" false 2)
      [apart_scene 0.5; stacked_scene 0; apart_scene 0.5; apart_scene 0] = Some rs
    ∧ count_true rs = 2%nat.
Proof.
  destruct (release_trace_without_reset (H := world) (fresh "sparse" false 2)
              [apart_scene 0.5; stacked_scene 0; apart_scene 0.5; apart_scene 0]
              [true; false; true; false])
    as (rs & Hrs & _ & Hcount & _).
  - reflexivity.
  - by_vm.
  - exists rs. split; [exact Hrs|exact Hcount].
Defined.

Lemma run_steps_after_reset_witness :
  ∃ results self',
    @run_steps world [apart_scene 0.5; stacked_scene 0.5; stacked_scene 0]
               (started "dense") = Some (results, self')
    ∧ length results = 3%nat
    ∧ _z_inits self' = _z_inits (started "dense").
Proof.
  destruct (@reset world (Some 0%Z) (fresh "dense" false 2) g0)
    as [[[out self] g']|] eqn:Hreset; [|returned_by_vm Hreset].
  assert (Hself : started "dense" = self) by (unfold started; by rewrite Hreset).
  destruct (run_steps_after_reset (H := world) (Some 0%Z) (fresh "dense" false 2)
              self g0 g' out
              [apart_scene 0.5; stacked_scene 0.5; stacked_scene 0] Hreset)
    as (results & self' & Hrun & Hlen & _ & Hz & _).
  - rewrite <- Hself. cbn [run_data].
    repeat (apply Forall_cons_2; [names_by_cases|]). apply Forall_nil_2.
  - rewrite Hself. exists results, self'.
    split; [exact Hrun|]. split; [exact Hlen|exact Hz].
Defined.

Lemma reset_generator_draws_witness :
  ∃ out self' g',
    @reset world (Some 0%Z) (fresh "sparse" true 2) g0 = Some (out, self', g')
    ∧ g' = @after_draws world 2 g0.
Proof.
  destruct (@reset world (Some 0%Z) (fresh "sparse" true 2) g0)
    as [[[out self] g']|] eqn:Hreset; [|returned_by_vm Hreset].
  exists out, self, g'. split; [reflexivity|].
  exact (reset_generator_draws (H := world) _ _ _ _ _ _ Hreset).
Defined.

Lemma reset_joint_positions_witness :
  joint (_data (started "sparse")) !! "block1"
  = Some [0.5; -0.1 + inject_Z (Z.of_nat 1) * 0.1; 0.02; 1; 0; 0; 0]
  ∧ joint canonical !! "block1" = Some [0.4; 0.1; 0.02; 1; 0; 0; 0].
Proof.
  destruct (@reset world (Some 0%Z) (fresh "sparse" false 2) g0)
    as [[[out self] g']|] eqn:Hreset; [|returned_by_vm Hreset].
  assert (Hself : started "sparse" = self) by (unfold started; by rewrite Hreset).
  rewrite Hself.
  pose proof (reset_joint_positions (H := world) _ _ _ _ _ _ Hreset) as Hw.
  cbv zeta in Hw. destruct Hw as (Hk & _).
  destruct (Hk 1%nat) as (qpos & Hq & _ & Hnew); [vm_compute; lia|].
  split; [|reflexivity].
  change ("block" +:+ pretty 1%nat) with "block1" in Hq, Hnew.
  rewrite Hnew. vm_compute in Hq. injection Hq as <-. reflexivity.
Defined.

Lemma reset_reads_sensors_before_placement_witness :
  ∃ out self' g',
    @reset world (Some 0%Z) (fresh "sparse" false 2) g0 = Some (out, self', g')
    ∧ sensor (_data self') = sensor canonical
    ∧ sensor canonical !! "block1_pos" = Some (Vec3 0.4 0.1 0.02)
    ∧ fst out
      = @StateObs world [F32 0]
          [F32 (13421773 # 33554432); F32 (13421773 # 134217728);
           F32 (5368709 # 268435456)].
Proof.
  destruct (@reset world (Some 0%Z) (fresh "sparse" false 2) g0)
    as [[[out self] g']|] eqn:Hreset; [|returned_by_vm Hreset].
  pose proof (reset_reads_sensors_before_placement (H := world) _ _ _ _ _ _ Hreset)
    as Hw.
  cbv zeta in Hw. destruct Hw as (Hsens & _ & Hobs & _).
  exists out, self, g'. split; [reflexivity|]. split; [exact Hsens|].
  split; [reflexivity|].
  destruct Hobs as (p & Hp & ->); [reflexivity|].
  vm_compute in Hp. injection Hp as <-.
  assert (Hrobot : @get_robot_state world (_data self) = [0]).
  { transitivity (@get_robot_state world (_data (started "sparse"))); [|by_vm].
    unfold started. by rewrite Hreset. }
  rewrite Hrobot. f_equal; by_vm.
Defined.

Lemma reset_returns_iff_witness :
  is_Some (@reset world (Some 0%Z) (fresh "sparse" false 2) g0).
Proof.
  apply (reset_returns_iff (H := world) (Some 0%Z) (fresh "sparse" false 2) g0).
  - simpl. lia.
  - split; [|eexists; by_vm].
    intros i Hi.
    do 2 (destruct i as [|i];
          [split; [eexists; split; [by_vm|vm_compute; lia]|eexists; by_vm]|]).
    exfalso. vm_compute in Hi. lia.
Defined.

End MoreRuns.
